(** * TruthLens service layer: response normalisation and call-site fallbacks

    A shallow embedding of [services/geminiService.ts] and of the two pages
    that call it (the awareness-template page and the trending-topics page).

    JavaScript strings are sequences of UTF-16 code units; the regular
    expressions of the source carry no [u] flag, so they too work on code
    units.  Exceptions and rejected promises are values of an error monad. *)

From Stdlib Require Import List NArith ZArith Lia Bool Arith String Ascii.
Import ListNotations.

#[local] Set Warnings "-register-all".
Local Open Scope N_scope.

(** ** JavaScript strings *)

Module JS.

Definition jsstring := list N.

(** An ASCII literal as a sequence of code units. *)
Definition lit (s : string) : jsstring :=
  List.map N_of_ascii (list_ascii_of_string s).

Definition quote : N := 34.

Fixpoint eqb (a b : jsstring) : bool :=
  match a, b with
  | [], [] => true
  | x :: a', y :: b' => N.eqb x y && eqb a' b'
  | _, _ => false
  end.

(** ECMAScript WhiteSpace and LineTerminator code points: what
    [String.prototype.trim] strips, what the class [\s] matches and what
    [parseInt] skips. *)
Definition is_white (c : N) : bool :=
  ((9 <=? c) && (c <=? 13)) || (c =? 32) || (c =? 160) || (c =? 5760)
  || ((8192 <=? c) && (c <=? 8202)) || (c =? 8232) || (c =? 8233)
  || (c =? 8239) || (c =? 8287) || (c =? 12288) || (c =? 65279).

Definition is_line_terminator (c : N) : bool :=
  (c =? 10) || (c =? 13) || (c =? 8232) || (c =? 8233).

Definition is_digit (c : N) : bool := (48 <=? c) && (c <=? 57).

Fixpoint trimStart (s : jsstring) : jsstring :=
  match s with
  | c :: s' => if is_white c then trimStart s' else s
  | [] => []
  end.

Definition trimEnd (s : jsstring) : jsstring := rev (trimStart (rev s)).

(** [s.trim()] *)
Definition trim (s : jsstring) : jsstring := trimEnd (trimStart s).

(** [s.startsWith(p)] *)
Fixpoint startsWith (p s : jsstring) : bool :=
  match p, s with
  | [], _ => true
  | x :: p', y :: s' => N.eqb x y && startsWith p' s'
  | _ :: _, [] => false
  end.

(** [s.substring(a, b)]: both indices are clamped to [0, s.length] and
    swapped when the first is the larger. *)
Definition clamp (len : nat) (i : Z) : nat :=
  Nat.min (Z.to_nat i) len.

Definition substring (a b : Z) (s : jsstring) : jsstring :=
  let a' := clamp (List.length s) a in
  let b' := clamp (List.length s) b in
  let from := Nat.min a' b' in
  let to := Nat.max a' b' in
  firstn (to - from) (skipn from s).

(** [s.split('\n')] *)
Fixpoint split_nl (s : jsstring) : list jsstring :=
  match s with
  | [] => [[]]
  | c :: s' =>
      if c =? 10 then [] :: split_nl s'
      else match split_nl s' with
           | l :: ls => (c :: l) :: ls
           | [] => [[c]]
           end
  end.

(** Truthiness of a string: only the empty string is falsy. *)
Definition truthy (s : jsstring) : bool :=
  match s with [] => false | _ :: _ => true end.

(** JavaScript numbers that [parseInt] can produce.  They are doubles: NaN,
    a finite double with an integer value (zero stands for +0), -0, or an
    infinity. *)
Inductive number : Type :=
| NaN : number
| Int (z : Z) : number
| NegZero : number
| Infinity (negative : bool) : number.

(** The double nearest to a non-negative integer [m], ties to the even
    significand; [None] when that is beyond the largest double.  Integers
    below 2^53 are doubles already; above, 53 bits are kept. *)
Definition round_magnitude (m : Z) : option Z :=
  if (m <? 2 ^ 53)%Z then Some m
  else
    let e := (Z.log2 m - 52)%Z in
    let q := Z.shiftr m e in
    let r := (m - Z.shiftl q e)%Z in
    let half := Z.shiftl 1 (e - 1) in
    let q' := if (half <? r)%Z || ((r =? half)%Z && Z.odd q) then (q + 1)%Z else q in
    let v := Z.shiftl q' e in
    if (2 ^ 1024 <=? v)%Z then None else Some v.

(** The Number value of a sign and a magnitude. *)
Definition to_number (negative : bool) (m : Z) : number :=
  match round_magnitude m with
  | None => Infinity negative
  | Some v =>
      if negative then (if (v =? 0)%Z then NegZero else Int (- v)) else Int v
  end.

(** A number that is neither NaN nor below zero: +0, a positive integer
    value or +Infinity. *)
Definition nonnegative (n : number) : Prop :=
  n = Infinity false \/ exists z, n = Int z /\ (0 <= z)%Z.

Arguments round_magnitude m : simpl never.
Arguments to_number negative m : simpl never.

Definition digit_val (c : N) : Z := Z.of_N c - 48.

Fixpoint digits_acc (acc : Z) (s : jsstring) : Z :=
  match s with
  | c :: s' => if is_digit c then digits_acc (10 * acc + digit_val c) s' else acc
  | [] => acc
  end.

Definition starts_with_digit (s : jsstring) : bool :=
  match s with c :: _ => is_digit c | [] => false end.

(** [parseInt(s, 10)]: leading white space is skipped, one sign is accepted,
    the longest run of decimal digits is read and anything after it is
    ignored; no digit at all gives NaN.  The digits are read exactly and
    the result is the nearest double, as the engines compute it. *)
Definition parseInt10 (s : jsstring) : number :=
  let s1 := trimStart s in
  let '(neg, s2) :=
    match s1 with
    | c :: r => if c =? 45 then (true, r) else if c =? 43 then (false, r) else (false, s1)
    | [] => (false, s1)
    end in
  if starts_with_digit s2
  then to_number neg (digits_acc 0 s2)
  else NaN.

End JS.

(** ** Exceptions *)

(** What a [throw] or a rejected promise carries. *)
Inductive exn : Type :=
| TypeError
| SyntaxError
| Error (message : JS.jsstring)
| Rejected (reason : JS.jsstring).

Inductive Result (A : Type) : Type :=
| Ok (a : A)
| Throw (e : exn).

Arguments Ok {A} a.
Arguments Throw {A} e.

Definition bind {A B : Type} (m : Result A) (f : A -> Result B) : Result B :=
  match m with
  | Ok a => f a
  | Throw e => Throw e
  end.

(** [try { body } catch (error) { handler }] *)
Definition try_catch {A : Type} (body : Result A) (handler : exn -> Result A) : Result A :=
  match body with
  | Ok a => Ok a
  | Throw e => handler e
  end.

Notation "x <- m ;; k" := (bind m (fun x => k))
  (at level 61, m at next level, right associativity).

(** [xs.map(f)] where the callback may throw: the first exception ends the
    traversal. *)
Fixpoint mapM {A B : Type} (f : A -> Result B) (xs : list A) : Result (list B) :=
  match xs with
  | [] => Ok []
  | x :: xs' => y <- f x ;; ys <- mapM f xs' ;; Ok (y :: ys)
  end.

(** [xs.filter(item => item !== null)] *)
Fixpoint filter_non_null {A : Type} (xs : list (option A)) : list A :=
  match xs with
  | [] => []
  | Some a :: xs' => a :: filter_non_null xs'
  | None :: xs' => filter_non_null xs'
  end.

(** ** Regular expressions, as a backtracking matcher *)

Module Regex.
Import JS.

Inductive charclass : Type :=
| Digit              (* \d *)
| Space              (* \s *)
| AnyChar            (* .  *)
| Chr (c : N).       (* a literal character *)

Definition accepts (cc : charclass) (c : N) : bool :=
  match cc with
  | Digit => is_digit c
  | Space => is_white c
  | AnyChar => negb (is_line_terminator c)
  | Chr d => c =? d
  end.

(** The fragment of the pattern language the source uses.  Quantifiers are
    only ever applied to a single character class, except for the optional
    non-capturing group. *)
Inductive regex : Type :=
| Atom (cc : charclass)
| Star (cc : charclass)          (* cc*  greedy *)
| LazyStar (cc : charclass)      (* cc*? *)
| Plus (cc : charclass)          (* cc+  greedy *)
| Opt (r : regex)                (* (?:r)? greedy *)
| Group (n : nat) (r : regex)    (* the n-th capturing group *)
| Seq (r1 r2 : regex)
| Alt (r1 r2 : regex)
| Bol                            (* ^ without the m flag *)
| Eol                            (* $ without the m flag *)
| Eps.

(** A literal run of characters. *)
Fixpoint Str (s : jsstring) : regex :=
  match s with
  | [] => Eps
  | c :: s' => Seq (Atom (Chr c)) (Str s')
  end.

Definition captures := list (nat * jsstring).

Fixpoint lookup (n : nat) (caps : captures) : option jsstring :=
  match caps with
  | [] => None
  | (m, s) :: caps' => if Nat.eqb m n then Some s else lookup n caps'
  end.

Section Matcher.
Context {R : Type}.

(** A continuation receives the end index, the rest of the input and the
    captures so far; [None] makes the matcher backtrack. *)
Definition cont := nat -> jsstring -> captures -> option R.

Definition orelse (a b : option R) : option R :=
  match a with Some x => Some x | None => b end.

(** Greedy: take one more character first, give it back on failure. *)
Fixpoint star (cc : charclass) (i : nat) (s : jsstring) (caps : captures)
         (k : cont) : option R :=
  match s with
  | c :: s' =>
      if accepts cc c
      then orelse (star cc (S i) s' caps k) (k i s caps)
      else k i s caps
  | [] => k i s caps
  end.

(** Lazy: try the continuation first, take one more character on failure. *)
Fixpoint lazy_star (cc : charclass) (i : nat) (s : jsstring) (caps : captures)
         (k : cont) : option R :=
  orelse (k i s caps)
    match s with
    | c :: s' => if accepts cc c then lazy_star cc (S i) s' caps k else None
    | [] => None
    end.

Fixpoint run (r : regex) (i : nat) (s : jsstring) (caps : captures)
         (k : cont) : option R :=
  match r with
  | Atom cc =>
      match s with
      | c :: s' => if accepts cc c then k (S i) s' caps else None
      | [] => None
      end
  | Star cc => star cc i s caps k
  | LazyStar cc => lazy_star cc i s caps k
  | Plus cc =>
      match s with
      | c :: s' => if accepts cc c then star cc (S i) s' caps k else None
      | [] => None
      end
  | Opt r1 =>
      orelse
        (run r1 i s caps
             (fun i' s' caps' => if Nat.eqb i' i then None else k i' s' caps'))
        (k i s caps)
  | Group n r1 =>
      run r1 i s caps
          (fun i' s' caps' => k i' s' ((n, firstn (i' - i) s) :: caps'))
  | Seq r1 r2 =>
      run r1 i s caps (fun i' s' caps' => run r2 i' s' caps' k)
  | Alt r1 r2 => orelse (run r1 i s caps k) (run r2 i s caps k)
  | Bol => if Nat.eqb i 0 then k i s caps else None
  | Eol => match s with [] => k i s caps | _ :: _ => None end
  | Eps => k i s caps
  end.
End Matcher.

(** One attempt at index [i], where [s] is the input from [i] on: the end
    index and the captures of the first successful path. *)
Definition match_at (r : regex) (i : nat) (s : jsstring) : option (nat * captures) :=
  run r i s [] (fun e _ caps => Some (e, caps)).

Record MatchResult : Type := {
  index : nat;
  matched : jsstring;
  groups : captures
}.

(** Start positions are tried from left to right. *)
Fixpoint search (r : regex) (i : nat) (s : jsstring) : option MatchResult :=
  match match_at r i s with
  | Some (e, caps) =>
      Some {| index := i; matched := firstn (e - i) s; groups := caps |}
  | None =>
      match s with
      | _ :: s' => search r (S i) s'
      | [] => None
      end
  end.

(** [s.match(r)] for a pattern without the g flag. *)
Definition exec (r : regex) (s : jsstring) : option MatchResult := search r 0 s.

(** [m[n]] for [n >= 1]; [None] is [undefined]. *)
Definition group (m : MatchResult) (n : nat) : option jsstring := lookup n (groups m).

(** [s.replace(r, '')] for a pattern with the g flag: every match is removed,
    scanning from left to right; after an empty match the scan moves on by
    one character.  [skip] counts the characters of the current match that
    are still to be dropped. *)
Fixpoint remove_from (r : regex) (i : nat) (s : jsstring) (skip : nat) : jsstring :=
  match s with
  | [] => []
  | c :: s' =>
      match skip with
      | S n => remove_from r (S i) s' n
      | O =>
          match match_at r i s with
          | Some (e, _) =>
              if Nat.eqb e i then c :: remove_from r (S i) s' 0
              else remove_from r (S i) s' (e - i - 1)
          | None => c :: remove_from r (S i) s' 0
          end
      end
  end.

Definition remove_all (r : regex) (s : jsstring) : jsstring := remove_from r 0 s 0.

End Regex.

(** ** JSON values and a JSON text parser *)

Module Json.
Import JS.

(** Numbers are kept as exact decimals [mantissa * 10 ^ exponent]. *)
Inductive json : Type :=
| JNull
| JBool (b : bool)
| JNumber (mantissa exponent : Z)
| JString (s : jsstring)
| JArray (items : list json)
| JObject (members : list (jsstring * json)).

(** JSON white space: tab, line feed, carriage return, space. *)
Definition is_ws (c : N) : bool :=
  (c =? 9) || (c =? 10) || (c =? 13) || (c =? 32).

Fixpoint skip_ws (s : jsstring) : jsstring :=
  match s with
  | c :: s' => if is_ws c then skip_ws s' else s
  | [] => []
  end.

(** The characters a JSON value can begin with:
    [{], [[], the double quote, [-], a digit, [t], [f], [n]. *)
Definition value_start (c : N) : bool :=
  (c =? 123) || (c =? 91) || (c =? 34) || (c =? 45) || is_digit c
  || (c =? 116) || (c =? 102) || (c =? 110).

Definition hex_val (c : N) : option N :=
  if is_digit c then Some (c - 48)
  else if (97 <=? c) && (c <=? 102) then Some (c - 87)
  else if (65 <=? c) && (c <=? 70) then Some (c - 55)
  else None.

Definition hex4 (a b c d : N) : option N :=
  match hex_val a, hex_val b, hex_val c, hex_val d with
  | Some x, Some y, Some z, Some w => Some (((x * 16 + y) * 16 + z) * 16 + w)
  | _, _, _, _ => None
  end.

Definition escape (c : N) : option N :=
  if (c =? 34) || (c =? 92) || (c =? 47) then Some c
  else if c =? 98 then Some 8
  else if c =? 102 then Some 12
  else if c =? 110 then Some 10
  else if c =? 114 then Some 13
  else if c =? 116 then Some 9
  else None.

Definition cons_fst (c : N) (p : option (jsstring * jsstring)) :=
  match p with
  | Some (str, rest) => Some (c :: str, rest)
  | None => None
  end.

(** The characters of a string after its opening quote, up to and including
    the closing quote. *)
Fixpoint string_body (s : jsstring) : option (jsstring * jsstring) :=
  match s with
  | [] => None
  | c :: s1 =>
      if c =? 34 then Some ([], s1)
      else if c =? 92 then
        match s1 with
        | [] => None
        | e :: s2 =>
            if e =? 117 then
              match s2 with
              | a :: b :: c' :: d :: s3 =>
                  match hex4 a b c' d with
                  | Some u => cons_fst u (string_body s3)
                  | None => None
                  end
              | _ => None
              end
            else
              match escape e with
              | Some u => cons_fst u (string_body s2)
              | None => None
              end
        end
      else if c <? 32 then None
      else cons_fst c (string_body s1)
  end.

Fixpoint take_digits (s : jsstring) : jsstring * jsstring :=
  match s with
  | c :: s' =>
      if is_digit c then let '(ds, r) := take_digits s' in (c :: ds, r) else ([], s)
  | [] => ([], [])
  end.

Definition is_nil {A : Type} (l : list A) : bool :=
  match l with [] => true | _ :: _ => false end.

Definition parse_fraction (s : jsstring) : option (jsstring * jsstring) :=
  match s with
  | c :: r =>
      if c =? 46 then
        let '(ds, r') := take_digits r in
        if is_nil ds then None else Some (ds, r')
      else Some ([], s)
  | [] => Some ([], s)
  end.

Definition parse_exponent (s : jsstring) : option (Z * jsstring) :=
  match s with
  | c :: r =>
      if (c =? 101) || (c =? 69) then
        let '(neg, r1) :=
          match r with
          | g :: r' => if g =? 45 then (true, r') else if g =? 43 then (false, r') else (false, r)
          | [] => (false, r)
          end in
        let '(ds, r2) := take_digits r1 in
        if is_nil ds then None
        else Some ((if neg then - digits_acc 0 ds else digits_acc 0 ds)%Z, r2)
      else Some (0%Z, s)
  | [] => Some (0%Z, s)
  end.

Definition parse_number (s : jsstring) : option (json * jsstring) :=
  let '(neg, s1) :=
    match s with
    | c :: r => if c =? 45 then (true, r) else (false, s)
    | [] => (false, s)
    end in
  let '(ip, s2) := take_digits s1 in
  match ip with
  | [] => None
  | d :: ip' =>
      if (d =? 48) && negb (is_nil ip') then None
      else
        match parse_fraction s2 with
        | None => None
        | Some (fp, s3) =>
            match parse_exponent s3 with
            | None => None
            | Some (e, s4) =>
                let m := digits_acc 0 (ip ++ fp) in
                Some (JNumber (if neg then - m else m)
                              (e - Z.of_nat (List.length fp)), s4)
            end
        end
  end.

Definition keyword (w : jsstring) (v : json) (s : jsstring) : option (json * jsstring) :=
  if startsWith w s then Some (v, skipn (List.length w) s) else None.

(** A later member with the same key replaces the value of the earlier one. *)
Fixpoint set_member (key : jsstring) (v : json) (ms : list (jsstring * json)) :=
  match ms with
  | [] => [(key, v)]
  | (k, w) :: ms' =>
      if JS.eqb k key then (k, v) :: ms' else (k, w) :: set_member key v ms'
  end.

Fixpoint parse_value (fuel : nat) (s : jsstring) : option (json * jsstring) :=
  match fuel with
  | O => None
  | S f =>
      match skip_ws s with
      | [] => None
      | c :: r =>
          if c =? 123 then
            match skip_ws r with
            | d :: r' => if d =? 125 then Some (JObject [], r') else parse_members f r []
            | [] => None
            end
          else if c =? 91 then
            match skip_ws r with
            | d :: r' => if d =? 93 then Some (JArray [], r') else parse_elems f r []
            | [] => None
            end
          else if c =? 34 then
            match string_body r with
            | Some (str, r') => Some (JString str, r')
            | None => None
            end
          else if c =? 116 then keyword (lit "true") (JBool true) (c :: r)
          else if c =? 102 then keyword (lit "false") (JBool false) (c :: r)
          else if c =? 110 then keyword (lit "null") JNull (c :: r)
          else if (c =? 45) || is_digit c then parse_number (c :: r)
          else None
      end
  end
with parse_elems (fuel : nat) (s : jsstring) (acc : list json) : option (json * jsstring) :=
  match fuel with
  | O => None
  | S f =>
      match parse_value f s with
      | Some (v, r) =>
          match skip_ws r with
          | c :: r' =>
              if c =? 44 then parse_elems f r' (v :: acc)
              else if c =? 93 then Some (JArray (rev (v :: acc)), r')
              else None
          | [] => None
          end
      | None => None
      end
  end
with parse_members (fuel : nat) (s : jsstring) (acc : list (jsstring * json))
     : option (json * jsstring) :=
  match fuel with
  | O => None
  | S f =>
      match skip_ws s with
      | q :: r =>
          if q =? 34 then
            match string_body r with
            | Some (key, r1) =>
                match skip_ws r1 with
                | colon :: r2 =>
                    if colon =? 58 then
                      match parse_value f r2 with
                      | Some (v, r3) =>
                          match skip_ws r3 with
                          | c :: r4 =>
                              if c =? 44 then parse_members f r4 (set_member key v acc)
                              else if c =? 125 then Some (JObject (set_member key v acc), r4)
                              else None
                          | [] => None
                          end
                      | None => None
                      end
                    else None
                | [] => None
                end
            | None => None
            end
          else None
      | [] => None
      end
  end.

(** A reference [JSON.parse]: one value, white space around it, nothing
    else; anything else is a SyntaxError.  It stands in for the platform's
    parser in examples only; numbers stay exact decimals and are not
    rounded to doubles. *)
Definition parse (s : jsstring) : Result json :=
  match parse_value (2 * List.length s + 2) s with
  | Some (v, rest) => if is_nil (skip_ws rest) then Ok v else Throw SyntaxError
  | None => Throw SyntaxError
  end.

End Json.

(** ** The service layer: [services/geminiService.ts] *)

Module Service.
Import JS Regex Json.

(** *** What goes to the hosted model and what comes back *)

Inductive Schema : Type :=
| TString
| TInteger
| TArray (items : Schema)
| TObject (properties : list (jsstring * Schema)).

Inductive Part : Type :=
| InlineData (mimeType data : jsstring)
| TextPart (text : jsstring).

Inductive Contents : Type :=
| Parts (parts : list Part)
| Prompt (text : jsstring).

Inductive Config : Type :=
| NoConfig
| JsonResponse (responseSchema : Schema)     (* responseMimeType: 'application/json' *)
| GoogleSearchTool.                          (* tools: [{ googleSearch: {} }] *)

Record Request : Type := {
  model : jsstring;
  contents : Contents;
  config : Config
}.

Record Response : Type := { text : jsstring }.

(** *** Effects: every call that leaves the module is recorded *)

Inductive Event : Type :=
| NewGoogleGenAI (apiKey : jsstring)
| ChatsCreate (chatModel systemInstruction : jsstring)
| GenerateContent (req : Request)
| SendMessage (message : jsstring).

(** A computation is the calls it made, in order, and how it ended. *)
Definition IO (A : Type) : Type := list Event * Result A.

Definition trace {A : Type} (m : IO A) : list Event := fst m.
Definition outcome {A : Type} (m : IO A) : Result A := snd m.

Definition io_ret {A : Type} (a : A) : IO A := ([], Ok a).
Definition io_lift {A : Type} (r : Result A) : IO A := ([], r).

Definition io_bind {A B : Type} (m : IO A) (f : A -> IO B) : IO B :=
  match m with
  | (t, Ok a) => let '(t', r) := f a in (t ++ t', r)
  | (t, Throw e) => (t, Throw e)
  end.

Definition io_try {A : Type} (body : IO A) (handler : exn -> IO A) : IO A :=
  match body with
  | (t, Ok a) => (t, Ok a)
  | (t, Throw e) => let '(t', r) := handler e in (t ++ t', r)
  end.

Notation "x <~ m ;; k" := (io_bind m (fun x => k))
  (at level 61, m at next level, right associativity).

(** *** Module initialisation *)

Definition gemini_flash : jsstring := lit "gemini-2.5-flash".

Definition chat_instruction : jsstring :=
  lit "You are a friendly and professional support assistant for CodeHustlers, the team behind the TruthLens application. Your primary role is to help users with their questions about using TruthLens. If you cannot resolve a user's issue or they ask to speak with a human, provide them with the official support email: teamcodehustlers@gmail.com. Do not answer general knowledge questions; focus solely on assisting with the TruthLens app.".

(** [!API_KEY]: the variable is unset, or set to the empty string. *)
Definition not_set (API_KEY : option jsstring) : bool :=
  match API_KEY with
  | None => true
  | Some key => negb (truthy key)
  end.

(** The top level of the module, run once when it is loaded, given
    [process.env.API_KEY]. *)
Definition load (API_KEY : option jsstring) : IO unit :=
  match API_KEY with
  | Some key =>
      if not_set API_KEY
      then io_lift (Throw (Error (lit "API_KEY environment variable not set")))
      else ([NewGoogleGenAI key; ChatsCreate gemini_flash chat_instruction], Ok tt)
  | None => io_lift (Throw (Error (lit "API_KEY environment variable not set")))
  end.

(** *** Prompts and schemas *)

Definition verdict_schema : Schema :=
  TObject [(lit "classification", TString);
           (lit "confidence", TInteger);
           (lit "explanation", TString)].

Definition article_schema : Schema :=
  TObject [(lit "riskLevel", TString);
           (lit "credibilityScore", TInteger);
           (lit "tags", TArray TString);
           (lit "summary", TString);
           (lit "claims", TArray (TObject [(lit "claim", TString);
                                           (lit "verification", TString)]))].

Definition template_schema : Schema :=
  TObject [(lit "title", TString);
           (lit "highlights", TArray TString);
           (lit "tips", TArray TString)].

Definition image_prompt : jsstring :=
  lit "Perform a highly detailed and critical analysis of this image for any signs of AI generation. Scrutinize intrinsic features like texture inconsistencies, illogical details, unnatural noise patterns, and known AI model artifacts. Ignore ambient lighting conditions. Your analysis must be thorough. Provide a classification ('AI-generated', 'Authentic', or 'Uncertain'), a confidence score (0-100), and a comprehensive, step-by-step explanation of your reasoning.".

Definition voice_prompt : jsstring :=
  lit "Analyze the voice in this audio clip. Determine if it is an AI-generated voice or a human voice. Scrutinize for subtle artifacts, unnatural cadence, pitch inconsistencies, or lack of emotional depth typical of synthesized speech. Provide a classification ('AI-Generated Voice' or 'Human Voice'), a confidence score (0-100), and a brief explanation for your conclusion.".

Definition article_prompt (content : jsstring) : jsstring :=
  lit "Perform a deep, critical analysis of the following article content. Break it down into its core claims. Meticulously fact-check each individual claim against multiple reliable, independent sources. For your findings, provide source attribution. Conclude with an overall misinformation risk level ('Low', 'Medium', 'High'), a credibility score (0-100), a list of relevant topic tags, and a concise, neutral summary of the content. Article content: "
  ++ [quote] ++ content ++ [quote].

Definition template_prompt (prompt : jsstring) : jsstring :=
  lit "Generate content for an awareness infographic based on this topic: "
  ++ [quote] ++ prompt ++ [quote]
  ++ lit ". Provide a catchy title, 3-4 key bullet points explaining why the content is misleading, and 1-2 safety tips or verified sources. Make it concise and easy to share.".

Definition trending_prompt : jsstring :=
  lit "List the top 5 trending misinformation topics or narratives currently circulating online. For each topic, provide a short title, a risk level ('High', 'Medium', 'Low'), and a credibility score (0-100). Format each as: `Title - Risk: [level] - Credibility: [score]`".

Definition assistant_prompt (query : jsstring) : jsstring :=
  lit "You are a helpful voice assistant for TruthLens. Respond to the following user query concisely, as if you were speaking. Do not provide links or act like a search engine. Give a direct answer. Query: "
  ++ [quote] ++ query ++ [quote].

(** *** Fallback values *)

Definition image_fallback : json :=
  JObject [(lit "classification", JString (lit "Uncertain"));
           (lit "confidence", JNumber 0 0);
           (lit "explanation", JString (lit "An error occurred during analysis."))].

Definition voice_fallback : json :=
  JObject [(lit "classification", JString (lit "Uncertain"));
           (lit "confidence", JNumber 0 0);
           (lit "explanation", JString (lit "An error occurred during voice analysis."))].

Definition article_fallback : json :=
  JObject [(lit "riskLevel", JString (lit "High"));
           (lit "credibilityScore", JNumber 0 0);
           (lit "tags", JArray []);
           (lit "summary", JString (lit "Error during analysis."));
           (lit "claims", JArray [])].

Definition template_fallback : json :=
  JObject [(lit "title", JString (lit "Error"));
           (lit "highlights", JArray [JString (lit "Could not generate content.")]);
           (lit "tips", JArray [])].

Definition chatbot_fallback : jsstring :=
  lit "Sorry, I'm having trouble connecting. Please try again later.".

Definition assistant_fallback : jsstring :=
  lit "Sorry, I couldn't process that. Please try again.".

(** *** Trending topics: records and patterns *)

Record TrendingTopic : Type := {
  topic : jsstring;
  risk : jsstring;
  score : number
}.

Definition placeholder_topic : TrendingTopic :=
  {| topic := lit "Could not parse trending topics."; risk := lit "Medium"; score := Int 50 |}.

Definition error_topic : TrendingTopic :=
  {| topic := lit "Error fetching topics."; risk := lit "High"; score := Int 0 |}.

Definition seq_of (rs : list regex) : regex := fold_right Seq Eps rs.

(** The pattern of [getTrendingTopics] (no flags), written here with a space
    between its tokens:
      (?: \d+ \. \s* )?  ( .*? )  \s* - \s* Risk: \s*  ( .*? )  \s* - \s* Credibility: \s*  ( \d+ )  *)
Definition trending_re : regex :=
  seq_of [ Opt (seq_of [Plus Digit; Atom (Chr 46); Star Space]);
           Group 1 (LazyStar AnyChar);
           Star Space; Atom (Chr 45); Star Space; Str (lit "Risk:"); Star Space;
           Group 2 (LazyStar AnyChar);
           Star Space; Atom (Chr 45); Star Space; Str (lit "Credibility:"); Star Space;
           Group 3 (Plus Digit) ].

(** The pattern of the [replace] call, [/^Q|Q$/g] where Q is the double
    quote character. *)
Definition quote_re : regex :=
  Alt (Seq Bol (Atom (Chr quote))) (Seq (Atom (Chr quote)) Eol).

(** Reading a capture of a match; [undefined.trim()] is a TypeError. *)
Definition capture (m : MatchResult) (n : nat) : Result jsstring :=
  match group m n with
  | Some s => Ok s
  | None => Throw TypeError
  end.

(** The callback of [map] in [getTrendingTopics]: a record for a line that
    matches, [null] ([None]) for one that does not. *)
Definition parse_line (line : jsstring) : Result (option TrendingTopic) :=
  match exec trending_re line with
  | Some m =>
      m1 <- capture m 1 ;;
      m2 <- capture m 2 ;;
      m3 <- capture m 3 ;;
      Ok (Some {| topic := remove_all quote_re (trim m1);
                  risk := trim m2;
                  score := parseInt10 m3 |})
  | None => Ok None
  end.

(** [text.split('\n').map(...).filter(item => item !== null)] *)
Definition parse_lines (lines : list jsstring) : Result (list TrendingTopic) :=
  items <- mapM parse_line lines ;; Ok (filter_non_null items).

Definition parse_topics (text : jsstring) : Result (list TrendingTopic) :=
  parse_lines (split_nl text).

(** [xs.slice(0, n)] *)
Definition slice0 {A : Type} (n : nat) (xs : list A) : list A := firstn n xs.

(** *** Requests *)

Definition image_request (base64Image mimeType : jsstring) : Request :=
  {| model := gemini_flash;
     contents := Parts [InlineData mimeType base64Image; TextPart image_prompt];
     config := JsonResponse verdict_schema |}.

Definition voice_request (base64Audio mimeType : jsstring) : Request :=
  {| model := gemini_flash;
     contents := Parts [InlineData mimeType base64Audio; TextPart voice_prompt];
     config := JsonResponse verdict_schema |}.

Definition article_request (content : jsstring) : Request :=
  {| model := gemini_flash;
     contents := Prompt (article_prompt content);
     config := JsonResponse article_schema |}.

Definition template_request (prompt : jsstring) : Request :=
  {| model := gemini_flash;
     contents := Prompt (template_prompt prompt);
     config := JsonResponse template_schema |}.

Definition trending_request : Request :=
  {| model := gemini_flash;
     contents := Prompt trending_prompt;
     config := GoogleSearchTool |}.

Definition assistant_request (query : jsstring) : Request :=
  {| model := gemini_flash;
     contents := Prompt (assistant_prompt query);
     config := NoConfig |}.

Section Gateway.
(** The hosted model, the chat session and the platform's [JSON.parse]
    are outside the repository. *)
Variable generateContent : Request -> Result Response.
Variable sendMessage : jsstring -> Result Response.
Variable JSON_parse : jsstring -> Result json.

Definition await_generateContent (req : Request) : IO Response :=
  ([GenerateContent req], generateContent req).

Definition await_sendMessage (message : jsstring) : IO Response :=
  ([SendMessage message], sendMessage message).

Definition cleanAndParseJson (text : jsstring) : Result json :=
  let cleanedText := trim text in
  let cleanedText :=
    if startsWith (lit "```json") cleanedText then
      trim (substring 7 (Z.of_nat (List.length cleanedText) - 3) cleanedText)
    else if startsWith (lit "```") cleanedText then
      trim (substring 3 (Z.of_nat (List.length cleanedText) - 3) cleanedText)
    else cleanedText in
  JSON_parse cleanedText.

Definition getChatbotResponse (message : jsstring) : IO jsstring :=
  io_try
    (response <~ await_sendMessage message ;;
     io_ret (text response))
    (fun error => io_ret chatbot_fallback).

Definition analyzeImageForAI (base64Image mimeType : jsstring) : IO json :=
  io_try
    (response <~ await_generateContent (image_request base64Image mimeType) ;;
     io_lift (cleanAndParseJson (text response)))
    (fun error => io_ret image_fallback).

Definition analyzeVoiceForAI (base64Audio mimeType : jsstring) : IO json :=
  io_try
    (response <~ await_generateContent (voice_request base64Audio mimeType) ;;
     io_lift (cleanAndParseJson (text response)))
    (fun error => io_ret voice_fallback).

Definition analyzeArticleContent (content : jsstring) : IO json :=
  io_try
    (response <~ await_generateContent (article_request content) ;;
     io_lift (cleanAndParseJson (text response)))
    (fun error => io_ret article_fallback).

Definition generateAwarenessTemplateText (prompt : jsstring) : IO json :=
  io_try
    (response <~ await_generateContent (template_request prompt) ;;
     io_lift (cleanAndParseJson (text response)))
    (fun error => io_ret template_fallback).

Definition getTrendingTopics : IO (list TrendingTopic) :=
  io_try
    (response <~ await_generateContent trending_request ;;
     let text := text response in
     io_lift
       (topics <- parse_topics text ;;
        if (0 <? List.length topics)%nat then Ok (slice0 5 topics)
        else if truthy text then Ok [placeholder_topic]
        else Ok []))
    (fun error => io_ret [error_topic]).

Definition getVoiceAssistantResponse (query : jsstring) : IO jsstring :=
  io_try
    (response <~ await_generateContent (assistant_request query) ;;
     io_ret (text response))
    (fun error => io_ret assistant_fallback).
End Gateway.

(** *** Vocabulary of the properties below *)

(** A line matches when the pattern is found somewhere in it. *)
Definition matches_pattern (line : jsstring) : bool :=
  match exec trending_re line with
  | Some _ => true
  | None => false
  end.

(** [r] is the record the parser builds from [line]. *)
Definition is_record_of (line : jsstring) (r : TrendingTopic) : Prop :=
  parse_line line = Ok (Some r).

Definition risk_levels : list jsstring :=
  [lit "High"; lit "Medium"; lit "Low"; lit "Unknown"].

(** The range the data model documents for a trending topic. *)
Definition documented_range (r : TrendingTopic) : Prop :=
  In (risk r) risk_levels /\ exists z, score r = Int z /\ (0 <= z <= 100)%Z.

(** What a call site guarantees: it always returns, and returns its fallback
    when the model call fails or when the response does not parse. *)
Definition falls_back_to
    (generateContent : Request -> Result Response)
    (JSON_parse : jsstring -> Result json)
    (req : Request) (fallback : json) (op : IO json) : Prop :=
  (exists v, outcome op = Ok v)
  /\ (forall e, generateContent req = Throw e -> outcome op = Ok fallback)
  /\ (forall response e,
        generateContent req = Ok response ->
        cleanAndParseJson JSON_parse (text response) = Throw e ->
        outcome op = Ok fallback).

End Service.

(** ** The awareness-template page *)

Module AwarenessTemplatesPage.
Import JS Json Service.

(** The five [useState] cells of the component. *)
Record State : Type := {
  prompt : jsstring;
  isLoading : bool;
  result : option json;
  error : option jsstring;
  isCopied : bool
}.

Definition setIsLoading (b : bool) (st : State) : State :=
  {| prompt := prompt st; isLoading := b; result := result st;
     error := error st; isCopied := isCopied st |}.

Definition setResult (r : option json) (st : State) : State :=
  {| prompt := prompt st; isLoading := isLoading st; result := r;
     error := error st; isCopied := isCopied st |}.

Definition setError (e : option jsstring) (st : State) : State :=
  {| prompt := prompt st; isLoading := isLoading st; result := result st;
     error := e; isCopied := isCopied st |}.

(** A state cell of type [TemplateContent | null] holding a parsed value:
    the JSON value [null] is the cell's [null]. *)
Definition nullable (v : json) : option json :=
  match v with
  | JNull => None
  | _ => Some v
  end.

Section Handlers.
Variable generateContent : Request -> Result Response.
Variable JSON_parse : jsstring -> Result json.

(** The click handler of the Generate button: the state it leaves behind
    and the calls it made. *)
Definition handleGenerate (st : State) : IO State :=
  if negb (truthy (trim (prompt st))) then
    io_ret (setError (Some (lit "Prompt cannot be empty.")) st)
  else
    let st := setIsLoading true st in
    let st := setResult None st in
    let st := setError None st in
    st' <~ io_try
             (generatedContent <~
                generateAwarenessTemplateText generateContent JSON_parse (prompt st) ;;
              io_ret (setResult (nullable generatedContent) st))
             (fun err =>
                io_ret (setError (Some (lit "Failed to generate the template. Please try again.")) st)) ;;
    io_ret (setIsLoading false st').
End Handlers.

End AwarenessTemplatesPage.

(** ** What a successful path of the matcher looks like *)

Module Matching.
Import JS Regex.

(** [matches r i s caps i' s' caps']: the pattern [r] can consume the input
    [s], which starts at index [i], up to index [i'], leaving [s'] and
    turning the captures [caps] into [caps']. *)
Inductive matches : regex -> nat -> jsstring -> captures ->
                    nat -> jsstring -> captures -> Prop :=
| M_atom cc c i s caps :
    accepts cc c = true ->
    matches (Atom cc) i (c :: s) caps (S i) s caps
| M_star cc i s caps n :
    (n <= List.length s)%nat ->
    forallb (accepts cc) (firstn n s) = true ->
    matches (Star cc) i s caps (i + n) (skipn n s) caps
| M_lazy cc i s caps n :
    (n <= List.length s)%nat ->
    forallb (accepts cc) (firstn n s) = true ->
    matches (LazyStar cc) i s caps (i + n) (skipn n s) caps
| M_plus cc i s caps n :
    (1 <= n <= List.length s)%nat ->
    forallb (accepts cc) (firstn n s) = true ->
    matches (Plus cc) i s caps (i + n) (skipn n s) caps
| M_opt_some r i s caps i' s' caps' :
    matches r i s caps i' s' caps' ->
    matches (Opt r) i s caps i' s' caps'
| M_opt_none r i s caps :
    matches (Opt r) i s caps i s caps
| M_group n r i s caps i' s' caps' :
    matches r i s caps i' s' caps' ->
    matches (Group n r) i s caps i' s' ((n, firstn (i' - i) s) :: caps')
| M_seq r1 r2 i s caps i1 s1 caps1 i2 s2 caps2 :
    matches r1 i s caps i1 s1 caps1 ->
    matches r2 i1 s1 caps1 i2 s2 caps2 ->
    matches (Seq r1 r2) i s caps i2 s2 caps2
| M_alt_l r1 r2 i s caps i' s' caps' :
    matches r1 i s caps i' s' caps' ->
    matches (Alt r1 r2) i s caps i' s' caps'
| M_alt_r r1 r2 i s caps i' s' caps' :
    matches r2 i s caps i' s' caps' ->
    matches (Alt r1 r2) i s caps i' s' caps'
| M_bol s caps :
    matches Bol 0 s caps 0 s caps
| M_eol i caps :
    matches Eol i [] caps i [] caps
| M_eps i s caps :
    matches Eps i s caps i s caps.

(** A run of at least [lo] accepted characters, then the continuation [k]
    with the result [res]. *)
Definition run_of {R : Type} (cc : charclass) (lo : nat) (i : nat) (s : jsstring)
    (caps : captures) (k : @cont R) (res : R) : Prop :=
  exists n, (lo <= n <= List.length s)%nat
            /\ forallb (accepts cc) (firstn n s) = true
            /\ k (i + n)%nat (skipn n s) caps = Some res.

(** Patterns without a capturing group leave the captures alone. *)
Fixpoint no_groups (r : regex) : bool :=
  match r with
  | Group _ _ => false
  | Opt r1 => no_groups r1
  | Seq r1 r2 | Alt r1 r2 => no_groups r1 && no_groups r2
  | _ => true
  end.

End Matching.

(** ** Sample inputs *)

Module Samples.
Import JS Json Service.

Definition vaccine_line : jsstring :=
  lit "1. Fake vaccine claim - Risk: High - Credibility: 12".

Definition vaccine_topic : TrendingTopic :=
  {| topic := lit "Fake vaccine claim"; risk := lit "High"; score := Int 12 |}.

Definition moon_line : jsstring :=
  lit "2. Moon landing hoax - Risk: Low - Credibility: 5".

Definition moon_topic : TrendingTopic :=
  {| topic := lit "Moon landing hoax"; risk := lit "Low"; score := Int 5 |}.

(** Seven lines of a typical answer; only the third and the sixth match. *)
Definition seven_lines : list jsstring :=
  [ lit "Here are the trending topics:";
    lit "";
    vaccine_line;
    lit "   (widely shared on social media)";
    lit "Risk: High";
    moon_line;
    lit "Sources: various" ].

Definition numbered_line (n : N) : jsstring :=
  lit "Topic " ++ [48 + n] ++ lit " - Risk: Medium - Credibility: 4" ++ [48 + n].

Definition numbered_topic (n : N) : TrendingTopic :=
  {| topic := lit "Topic " ++ [48 + n]; risk := lit "Medium"; score := Int (40 + Z.of_N n) |}.

(** [lines.join('\n')] *)
Fixpoint join_nl (lines : list jsstring) : jsstring :=
  match lines with
  | [] => []
  | [l] => l
  | l :: ls => l ++ [10] ++ join_nl ls
  end.

(** Six matching lines and a heading. *)
Definition six_topics_text : jsstring :=
  join_nl (lit "Top topics" :: List.map numbered_line [1; 2; 3; 4; 5; 6]).

Definition critical_line : jsstring :=
  lit "X - Risk: Critical - Credibility: 999".

Definition critical_topic : TrendingTopic :=
  {| topic := lit "X"; risk := lit "Critical"; score := Int 999 |}.

(** A credibility of four hundred nines is beyond every double. *)
Definition endless_line : jsstring :=
  lit "Y - Risk: Low - Credibility: " ++ List.repeat 57 400.

Definition endless_topic : TrendingTopic :=
  {| topic := lit "Y"; risk := lit "Low"; score := Infinity false |}.

(** A model that answers every request with the same text. *)
Definition answering (t : jsstring) : Request -> Result Response :=
  fun _ => Ok {| text := t |}.

(** A model call that is rejected. *)
Definition unreachable : Request -> Result Response :=
  fun _ => Throw (Rejected (lit "fetch failed")).

(** The JSON text of an image verdict: an object with the members
    classification, confidence and explanation. *)
Definition verdict_text : jsstring :=
  lit "{" ++ [quote] ++ lit "classification" ++ [quote] ++ lit ": "
          ++ [quote] ++ lit "Authentic" ++ [quote] ++ lit ", "
          ++ [quote] ++ lit "confidence" ++ [quote] ++ lit ": 87, "
          ++ [quote] ++ lit "explanation" ++ [quote] ++ lit ": "
          ++ [quote] ++ lit "No artifacts." ++ [quote] ++ lit "}".

Definition verdict_value : json :=
  JObject [(lit "classification", JString (lit "Authentic"));
           (lit "confidence", JNumber 87 0);
           (lit "explanation", JString (lit "No artifacts."))].

Definition truncated_text : jsstring :=
  lit "{" ++ [quote] ++ lit "classification" ++ [quote] ++ lit ": ".

Definition blank_prompt : jsstring := [32; 9; 10; 160].

End Samples.

(** ** The trending-topics page *)

Module TrendingTopicsPage.
Import JS Service.

(** The three [useState] cells of the component. *)
Record State : Type := {
  topics : list TrendingTopic;
  isLoading : bool;
  error : option jsstring
}.

(** The state the component is mounted with. *)
Definition initial : State :=
  {| topics := []; isLoading := true; error := None |}.

Definition setTopics (ts : list TrendingTopic) (st : State) : State :=
  {| topics := ts; isLoading := isLoading st; error := error st |}.

Definition setIsLoading (b : bool) (st : State) : State :=
  {| topics := topics st; isLoading := b; error := error st |}.

Definition setError (e : option jsstring) (st : State) : State :=
  {| topics := topics st; isLoading := isLoading st; error := e |}.

Definition no_topics_message : jsstring :=
  lit "No trending topics could be fetched at this time.".

Definition fetch_failed_message : jsstring :=
  lit "Failed to fetch trending topics.".

Section Effects.
Variable generateContent : Request -> Result Response.

(** The effect run when the page is mounted. *)
Definition fetchTopics (st : State) : IO State :=
  let st := setIsLoading true st in
  let st := setError None st in
  st' <~ io_try
           (fetchedTopics <~ getTrendingTopics generateContent ;;
            if (0 <? List.length fetchedTopics)%nat
            then io_ret (setTopics fetchedTopics st)
            else io_ret (setError (Some no_topics_message) st))
           (fun err => io_ret (setError (Some fetch_failed_message) st)) ;;
  io_ret (setIsLoading false st').
End Effects.

Section Colours.
(** [String.prototype.toLowerCase] follows the Unicode case tables and is
    left as a parameter. *)
Variable toLowerCase : jsstring -> jsstring.

Definition getRiskColor (risk : jsstring) : jsstring :=
  let r := toLowerCase risk in
  if JS.eqb r (lit "high") then lit "bg-red-500"
  else if JS.eqb r (lit "medium") then lit "bg-yellow-500"
  else if JS.eqb r (lit "low") then lit "bg-green-500"
  else lit "bg-gray-500".

Definition getRiskTextColor (risk : jsstring) : jsstring :=
  let r := toLowerCase risk in
  if JS.eqb r (lit "high") then lit "text-red-500"
  else if JS.eqb r (lit "medium") then lit "text-yellow-500"
  else if JS.eqb r (lit "low") then lit "text-green-500"
  else lit "text-gray-500".
End Colours.

End TrendingTopicsPage.

(** ** The shape of a trending-topics line *)

Module Shapes.
Import JS Regex.

Definition white (s : jsstring) : bool := forallb is_white s.

(** No line terminator: every character is one the dot of a pattern takes. *)
Definition one_line (s : jsstring) : bool := forallb (accepts AnyChar) s.

Definition no_dash (s : jsstring) : bool := forallb (fun c => negb (c =? 45)) s.

Definition digits (s : jsstring) : bool := forallb is_digit s.

(** The pieces of a line [title - Risk: level - Credibility: number], with
    the white space between them. *)
Record Pieces : Type := {
  title : jsstring;
  gap1 : jsstring;      (* before the first dash *)
  gap2 : jsstring;      (* after it *)
  gap3 : jsstring;      (* after Risk: *)
  level : jsstring;
  gap4 : jsstring;      (* before the second dash *)
  gap5 : jsstring;      (* after it *)
  gap6 : jsstring;      (* after Credibility: *)
  number : jsstring
}.

Definition assemble (p : Pieces) : jsstring :=
  title p ++ gap1 p ++ lit "-" ++ gap2 p ++ lit "Risk:" ++ gap3 p
  ++ level p ++ gap4 p ++ lit "-" ++ gap5 p ++ lit "Credibility:" ++ gap6 p
  ++ number p.

(** What the pattern asks of the pieces. *)
Definition shaped (p : Pieces) : bool :=
  one_line (title p) && one_line (level p)
  && white (gap1 p) && white (gap2 p) && white (gap3 p)
  && white (gap4 p) && white (gap5 p) && white (gap6 p)
  && digits (number p) && negb (Json.is_nil (number p)).

(** Pieces that can be read in one way only: no dash inside the title or
    the level, no white space at the end of the title or at either end of
    the level, a level that is not empty. *)
Definition unambiguous (p : Pieces) : bool :=
  shaped p
  && no_dash (title p) && no_dash (level p)
  && JS.eqb (trimEnd (title p)) (title p)
  && JS.eqb (trim (level p)) (level p)
  && negb (Json.is_nil (level p)).

(** An ordinal as the model writes it before a title: digits, a dot, white
    space. *)
Definition ordinal (ds ws : jsstring) : jsstring := ds ++ lit "." ++ ws.

(** Removing one double quote at the front and one at the back. *)
Definition drop_first_quote (s : jsstring) : jsstring :=
  match s with
  | c :: s' => if c =? quote then s' else s
  | [] => []
  end.

Fixpoint drop_last_quote (s : jsstring) : jsstring :=
  match s with
  | [] => []
  | c :: s' =>
      match s' with
      | [] => if c =? quote then [] else [c]
      | _ :: _ => c :: drop_last_quote s'
      end
  end.

Definition strip_quotes (s : jsstring) : jsstring :=
  drop_last_quote (drop_first_quote s).

(** The input does not go on with a character of the class. *)
Definition stops (cc : charclass) (s : jsstring) : Prop :=
  forall c r, s = c :: r -> accepts cc c = false.

(** The two halves of the trending pattern: the optional ordinal and the
    three fields. *)
Definition ordinal_re : regex :=
  Seq (Plus Digit) (Seq (Atom (Chr 46)) (Seq (Star Space) Eps)).

Definition fields_re : regex :=
  Seq (Group 1 (LazyStar AnyChar))
  (Seq (Star Space) (Seq (Atom (Chr 45)) (Seq (Star Space)
  (Seq (Str (lit "Risk:")) (Seq (Star Space)
  (Seq (Group 2 (LazyStar AnyChar))
  (Seq (Star Space) (Seq (Atom (Chr 45)) (Seq (Star Space)
  (Seq (Str (lit "Credibility:")) (Seq (Star Space)
  (Seq (Group 3 (Plus Digit)) Eps)))))))))))).

(** [unambiguous], one fact at a time. *)
Record Unambiguous (p : Pieces) : Prop := {
  u_title_line : forallb (accepts AnyChar) (title p) = true;
  u_level_line : forallb (accepts AnyChar) (level p) = true;
  u_gap1 : forallb is_white (gap1 p) = true;
  u_gap2 : forallb is_white (gap2 p) = true;
  u_gap3 : forallb is_white (gap3 p) = true;
  u_gap4 : forallb is_white (gap4 p) = true;
  u_gap5 : forallb is_white (gap5 p) = true;
  u_gap6 : forallb is_white (gap6 p) = true;
  u_number : exists d ds, number p = d :: ds /\ forallb is_digit (d :: ds) = true;
  u_title_dash : no_dash (title p) = true;
  u_level_dash : no_dash (level p) = true;
  u_title_end : trimEnd (title p) = title p;
  u_level_trim : trim (level p) = level p;
  u_level_head : exists c r, level p = c :: r /\ is_white c = false
}.

(** The record the parser is meant to build from the pieces; the score is
    the number of the line as a double. *)
Definition record_of_pieces (p : Pieces) : Service.TrendingTopic :=
  {| Service.topic := strip_quotes (trim (title p));
     Service.risk := level p;
     Service.score := to_number false (digits_acc 0 (number p)) |}.

(** A line as the prompt asks for it: the pieces are unambiguous, the title
    does not start with a digit and there is no line feed in the line. *)
Definition requested (p : Pieces) : bool :=
  unambiguous p
  && negb (starts_with_digit (title p))
  && forallb (fun c => negb (c =? 10)) (assemble p).

(** [lines.join('\n')] *)
Fixpoint join_lines (lines : list jsstring) : jsstring :=
  match lines with
  | [] => []
  | l :: ls =>
      match ls with
      | [] => l
      | _ :: _ => l ++ [10] ++ join_lines ls
      end
  end.

(** Every [Opt] of the pattern has a body without capturing groups. *)
Fixpoint plain_options (r : regex) : bool :=
  match r with
  | Opt r1 => Matching.no_groups r1 && plain_options r1
  | Group _ r1 => plain_options r1
  | Seq r1 r2 | Alt r1 r2 => plain_options r1 && plain_options r2
  | _ => true
  end.

End Shapes.

Module LineSamples.
Import JS Service Shapes.

(** [Moon landing hoax  -  Risk: Low - Credibility:42] with a quoted title. *)
Definition moon_pieces : Pieces :=
  {| title := [quote] ++ lit "Moon landing hoax" ++ [quote];
     gap1 := lit "  "; gap2 := lit "  "; gap3 := lit " ";
     level := lit "Low";
     gap4 := lit " "; gap5 := lit " "; gap6 := [];
     number := lit "42" |}.

Definition moon_record : TrendingTopic :=
  {| topic := lit "Moon landing hoax"; risk := lit "Low"; score := Int 42 |}.

Definition tower_pieces : Pieces :=
  {| title := lit "5G towers";
     gap1 := lit " "; gap2 := lit " "; gap3 := lit " ";
     level := lit "Very high";
     gap4 := lit " "; gap5 := lit " "; gap6 := lit " ";
     number := lit "7" |}.

Definition tower_record : TrendingTopic :=
  {| topic := lit "5G towers"; risk := lit "Very high"; score := Int 7 |}.

(** Two matching lines between a heading and a footer. *)
Definition two_topics_text : jsstring :=
  join_lines [lit "Trending now:"; assemble moon_pieces;
              ordinal (lit "2") (lit " ") ++ assemble tower_pieces;
              lit "(end)"].

End LineSamples.

(** * Properties *)

(** ** Strings *)

Module JSFacts.
Import JS.

Lemma trimStart_white (s : jsstring) :
  forallb is_white s = true -> trimStart s = [].
Proof.
  induction s as [|c s IH]; simpl; [reflexivity|].
  intros H. apply andb_true_iff in H as [Hc Hs]. rewrite Hc. auto.
Qed.

Lemma trim_white (s : jsstring) :
  forallb is_white s = true -> trim s = [].
Proof.
  intros H. unfold trim, trimEnd. rewrite (trimStart_white s H). reflexivity.
Qed.

Lemma trimStart_fixed (c : N) (s : jsstring) :
  is_white c = false -> trimStart (c :: s) = c :: s.
Proof. intros H. simpl. rewrite H. reflexivity. Qed.

(** What [trimStart] returns is empty or starts with a character that is
    not white space. *)
Lemma trimStart_head (s : jsstring) :
  trimStart s = [] \/ exists c r, trimStart s = c :: r /\ is_white c = false.
Proof.
  induction s as [|c s IH]; simpl; [now left|].
  destruct (is_white c) eqn:E; [exact IH|].
  right. exists c, s. split; [reflexivity|exact E].
Qed.

Lemma trimStart_idem (s : jsstring) : trimStart (trimStart s) = trimStart s.
Proof.
  destruct (trimStart_head s) as [-> | (c & r & -> & Hc)]; [reflexivity|].
  now apply trimStart_fixed.
Qed.

(** [trimStart] drops a prefix. *)
Lemma trimStart_suffix (s : jsstring) : exists p, s = p ++ trimStart s.
Proof.
  induction s as [|c s [p IH]]; simpl.
  - exists []. reflexivity.
  - destruct (is_white c).
    + exists (c :: p). simpl. now rewrite <- IH.
    + exists []. reflexivity.
Qed.

(** Trimming on the right keeps a first character that is not white space. *)
Lemma trimEnd_head (c : N) (s : jsstring) :
  is_white c = false -> exists r, trimEnd (c :: s) = c :: r.
Proof.
  intros Hc. unfold trimEnd. simpl rev.
  assert (G : forall l, exists q, trimStart (l ++ [c]) = q ++ [c]).
  { induction l as [|d l [q IH]]; simpl.
    - rewrite Hc. exists []. reflexivity.
    - destruct (is_white d).
      + exists q. exact IH.
      + exists (d :: l). reflexivity. }
  destruct (G (rev s)) as [q ->].
  rewrite rev_app_distr. simpl. eauto.
Qed.

Lemma trimEnd_idem (s : jsstring) : trimEnd (trimEnd s) = trimEnd s.
Proof.
  unfold trimEnd. rewrite rev_involutive, trimStart_idem. reflexivity.
Qed.

(** Trimming on the right does not bring white space to the front. *)
Lemma trimStart_trimEnd_fixed (s : jsstring) :
  trimStart s = s -> trimStart (trimEnd s) = trimEnd s.
Proof.
  intros H. destruct s as [|c s]; [reflexivity|].
  simpl in H. destruct (is_white c) eqn:Hc.
  - exfalso. destruct (trimStart_suffix s) as [p Hp].
    rewrite H in Hp. apply (f_equal (@List.length N)) in Hp.
    rewrite length_app in Hp. simpl in Hp. lia.
  - destruct (trimEnd_head c s Hc) as [r ->]. now apply trimStart_fixed.
Qed.

Lemma trim_idem (s : jsstring) : trim (trim s) = trim s.
Proof.
  unfold trim.
  rewrite (trimStart_trimEnd_fixed (trimStart s) (trimStart_idem s)).
  apply trimEnd_idem.
Qed.

End JSFacts.

(** ** The matcher only succeeds along a path of the pattern *)

Module MatcherFacts.
Import JS Regex Matching.
Local Open Scope nat_scope.

Section Soundness.
Context {R : Type}.
Implicit Types (k : @cont R) (res : R).

Lemma orelse_some (a b : option R) res :
  orelse a b = Some res -> a = Some res \/ b = Some res.
Proof. destruct a; simpl; intros H; [left|right]; exact H. Qed.

Lemma run_of_zero cc i s caps k res :
  k i s caps = Some res -> run_of cc 0 i s caps k res.
Proof.
  intros H. exists 0%nat. simpl. rewrite Nat.add_0_r.
  repeat split; [lia | lia | exact H].
Qed.

Lemma run_of_step cc lo i c s caps k res :
  accepts cc c = true ->
  run_of cc lo (S i) s caps k res ->
  run_of cc (S lo) i (c :: s) caps k res.
Proof.
  intros Hc (n & Hn & Hall & Hk). exists (S n). simpl.
  rewrite Hc, Hall. replace (i + S n)%nat with (S i + n)%nat by lia.
  repeat split; [lia | lia | exact Hk].
Qed.

Lemma run_of_weaken cc lo lo' i s caps k res :
  (lo' <= lo)%nat -> run_of cc lo i s caps k res -> run_of cc lo' i s caps k res.
Proof.
  intros Hle (n & Hn & Hall & Hk). exists n. repeat split; [lia | lia | assumption | assumption].
Qed.

Lemma star_sound cc s : forall i caps k res,
  star cc i s caps k = Some res -> run_of cc 0 i s caps k res.
Proof.
  induction s as [|c s IH]; simpl; intros i caps k res H.
  - now apply run_of_zero.
  - destruct (accepts cc c) eqn:Hc; [|now apply run_of_zero].
    apply orelse_some in H as [H|H]; [|now apply run_of_zero].
    apply run_of_weaken with (lo := 1%nat); [lia|].
    apply run_of_step; auto.
Qed.

Lemma lazy_star_sound cc s : forall i caps k res,
  lazy_star cc i s caps k = Some res -> run_of cc 0 i s caps k res.
Proof.
  induction s as [|c s IH]; simpl; intros i caps k res H.
  - apply orelse_some in H as [H|H]; [now apply run_of_zero | discriminate].
  - apply orelse_some in H as [H|H]; [now apply run_of_zero|].
    destruct (accepts cc c) eqn:Hc; [|discriminate].
    apply run_of_weaken with (lo := 1%nat); [lia|].
    apply run_of_step; auto.
Qed.

Theorem run_sound (r : regex) : forall i s caps k res,
  run r i s caps k = Some res ->
  exists i' s' caps',
    matches r i s caps i' s' caps' /\ k i' s' caps' = Some res.
Proof.
  induction r as [cc|cc|cc|cc|r IH|n r IH|r1 IH1 r2 IH2|r1 IH1 r2 IH2| | |];
    simpl; intros i s caps k res H.
  - destruct s as [|c s]; [discriminate|].
    destruct (accepts cc c) eqn:Hc; [|discriminate].
    exists (S i), s, caps. split; [now constructor | exact H].
  - apply star_sound in H as (n & Hn & Hall & Hk).
    exists (i + n)%nat, (skipn n s), caps. split; [constructor; [lia|assumption] | exact Hk].
  - apply lazy_star_sound in H as (n & Hn & Hall & Hk).
    exists (i + n)%nat, (skipn n s), caps. split; [constructor; [lia|assumption] | exact Hk].
  - destruct s as [|c s]; [discriminate|].
    destruct (accepts cc c) eqn:Hc; [|discriminate].
    apply star_sound in H. apply (run_of_step cc 0 i c s caps k res Hc) in H.
    destruct H as (n & Hn & Hall & Hk).
    exists (i + n)%nat, (skipn n (c :: s)), caps.
    split; [constructor; assumption | exact Hk].
  - apply orelse_some in H as [H|H].
    + apply IH in H as (i' & s' & caps' & Hm & Hk).
      destruct (Nat.eqb i' i); [discriminate|].
      exists i', s', caps'. split; [now apply M_opt_some | exact Hk].
    + exists i, s, caps. split; [apply M_opt_none | exact H].
  - apply IH in H as (i' & s' & caps' & Hm & Hk).
    exists i', s', ((n, firstn (i' - i) s) :: caps').
    split; [now constructor | exact Hk].
  - apply IH1 in H as (i1 & s1 & caps1 & Hm1 & H).
    apply IH2 in H as (i2 & s2 & caps2 & Hm2 & Hk).
    exists i2, s2, caps2. split; [econstructor; eassumption | exact Hk].
  - apply orelse_some in H as [H|H].
    + apply IH1 in H as (i' & s' & caps' & Hm & Hk).
      exists i', s', caps'. split; [now apply M_alt_l | exact Hk].
    + apply IH2 in H as (i' & s' & caps' & Hm & Hk).
      exists i', s', caps'. split; [now apply M_alt_r | exact Hk].
  - destruct (Nat.eqb i 0) eqn:E; [|discriminate].
    apply Nat.eqb_eq in E. subst i.
    exists 0%nat, s, caps. split; [constructor | exact H].
  - destruct s; [|discriminate].
    exists i, [], caps. split; [constructor | exact H].
  - exists i, s, caps. split; [constructor | exact H].
Qed.
End Soundness.

Lemma match_at_sound r i s e caps :
  match_at r i s = Some (e, caps) ->
  exists s', matches r i s [] e s' caps.
Proof.
  unfold match_at. intros H.
  apply run_sound in H as (i' & s' & caps' & Hm & Hk).
  injection Hk as -> ->. eauto.
Qed.

Lemma search_sound r s : forall i m,
  search r i s = Some m ->
  exists j t e, match_at r j t = Some (e, groups m).
Proof.
  induction s as [|c s IH]; simpl; intros i m H.
  - destruct (match_at r i []) as [[e caps]|] eqn:E; [|discriminate].
    injection H as <-. simpl. eauto.
  - destruct (match_at r i (c :: s)) as [[e caps]|] eqn:E.
    + injection H as <-. simpl. eauto.
    + eapply IH. exact H.
Qed.

Lemma no_groups_captures r i s caps i' s' caps' :
  matches r i s caps i' s' caps' -> no_groups r = true -> caps' = caps.
Proof.
  intros Hm Hr. induction Hm; simpl in Hr; try reflexivity;
    try discriminate; auto.
  - apply andb_true_iff in Hr as [H1 H2].
    rewrite (IHHm2 H2). auto.
  - apply andb_true_iff in Hr as [H1 H2]. auto.
  - apply andb_true_iff in Hr as [H1 H2]. auto.
Qed.

End MatcherFacts.

(** ** The trending-topics pattern *)

Module TrendingFacts.
Import JS Regex Matching MatcherFacts Service.
Local Open Scope nat_scope.

Ltac invert_matches :=
  repeat match goal with
    | H : matches (Seq _ _) _ _ _ _ _ _ |- _ => inversion H; subst; clear H
    | H : matches (Group _ _) _ _ _ _ _ _ |- _ => inversion H; subst; clear H
    | H : matches Eps _ _ _ _ _ _ |- _ => inversion H; subst; clear H
    | H : matches (Plus _) _ _ _ _ _ _ |- _ => inversion H; subst; clear H
    end.

Ltac same_captures :=
  repeat match goal with
    | H : matches ?r _ _ ?c _ _ ?c' |- _ =>
        let E := fresh "E" in
        assert (E : c' = c) by (apply (no_groups_captures _ _ _ _ _ _ _ H eq_refl));
        clear H; try subst c'
    end.

(** Whenever the pattern matches, its three groups all took part, and the
    third one holds at least one character, the first of which is a digit. *)
Lemma trending_captures i s e caps :
  match_at trending_re i s = Some (e, caps) ->
  exists g1 g2 d g3,
    caps = [(3, d :: g3); (2, g2); (1, g1)] /\ is_digit d = true.
Proof.
  intros H. apply match_at_sound in H as [s' H].
  cbv [trending_re seq_of fold_right] in H.
  invert_matches. same_captures.
  match goal with
  | Hn : 1 <= ?n <= List.length ?t, Hd : forallb _ (firstn ?n ?t) = true |- _ =>
      destruct t as [|d t]; [simpl in Hn; lia|];
      destruct n as [|n]; [lia|];
      replace (_ + S n - _) with (S n) by lia;
      simpl in Hd; apply andb_true_iff in Hd as [Hd _]
  end.
  simpl. eauto 10.
Qed.

Lemma exec_captures line m :
  exec trending_re line = Some m ->
  exists g1 g2 d g3,
    groups m = [(3, d :: g3); (2, g2); (1, g1)] /\ is_digit d = true.
Proof.
  unfold exec. intros H.
  apply search_sound in H as (j & t & e & H).
  now apply trending_captures in H.
Qed.

(** The callback never throws: a line either does not match and gives
    [null], or matches and gives a record built from the three groups. *)
Lemma parse_line_cases line :
  (matches_pattern line = false /\ parse_line line = Ok None)
  \/ (matches_pattern line = true /\
      exists g1 g2 d g3,
        is_digit d = true /\
        parse_line line =
          Ok (Some {| topic := remove_all quote_re (trim g1);
                      risk := trim g2;
                      score := parseInt10 (d :: g3) |})).
Proof.
  unfold matches_pattern, parse_line.
  destruct (exec trending_re line) as [m|] eqn:E; [right|left; split; reflexivity].
  split; [reflexivity|].
  apply exec_captures in E as (g1 & g2 & d & g3 & Hg & Hd).
  exists g1, g2, d, g3. split; [exact Hd|].
  unfold capture, group. rewrite Hg. reflexivity.
Qed.

Lemma parse_line_matching line :
  matches_pattern line = true -> exists r, is_record_of line r.
Proof.
  intros Hm. destruct (parse_line_cases line) as [[Hn _] | [_ (g1 & g2 & d & g3 & _ & H)]].
  - congruence.
  - eexists. exact H.
Qed.

Lemma parse_line_not_matching line :
  matches_pattern line = false -> parse_line line = Ok None.
Proof.
  intros Hm. destruct (parse_line_cases line) as [[_ H] | [Hn _]]; [exact H | congruence].
Qed.

(** The records of a list of lines are those of its matching lines, one
    each, in the order of the lines. *)
Lemma parse_lines_spec lines :
  exists records,
    parse_lines lines = Ok records
    /\ Forall2 is_record_of (filter matches_pattern lines) records.
Proof.
  unfold parse_lines.
  induction lines as [|l lines (records & Hp & Hrec)]; simpl.
  - exists []. split; [reflexivity | constructor].
  - destruct (mapM parse_line lines) as [items|e] eqn:Hitems; simpl in Hp; [|discriminate].
    injection Hp as Hp.
    destruct (matches_pattern l) eqn:Hm.
    + destruct (parse_line_matching l Hm) as [r Hr].
      unfold is_record_of in Hr. rewrite Hr. simpl.
      exists (r :: records). split; [now rewrite Hp | now constructor].
    + rewrite (parse_line_not_matching l Hm). simpl.
      exists records. split; [now rewrite Hp | assumption].
Qed.

(** Digits are neither white space nor signs. *)
Lemma digit_plain d :
  is_digit d = true -> is_white d = false /\ (d =? 45)%N = false /\ (d =? 43)%N = false.
Proof.
  unfold is_digit, is_white. intros H.
  apply andb_true_iff in H as [H1 H2].
  apply N.leb_le in H1. apply N.leb_le in H2.
  repeat match goal with
    | |- context [(?a <=? ?b)%N] => destruct (N.leb_spec a b); try lia
    | |- context [(?a =? ?b)%N] => destruct (N.eqb_spec a b); try lia
    end.
  all: simpl; auto.
Qed.

Lemma digits_acc_nonneg s : forall acc, (0 <= acc)%Z -> (0 <= digits_acc acc s)%Z.
Proof.
  induction s as [|c s IH]; cbn [digits_acc]; intros acc Hacc; [exact Hacc|].
  destruct (is_digit c) eqn:Hc; [|exact Hacc].
  apply IH. unfold is_digit in Hc. apply andb_true_iff in Hc as [H1 _].
  apply N.leb_le in H1. unfold digit_val. lia.
Qed.

(** [parseInt] of a run that starts with a digit is a non-negative integer. *)
(** Rounding a non-negative integer to a double gives a non-negative
    integer value or +Infinity. *)
Lemma to_number_nonneg m : (0 <= m)%Z -> nonnegative (to_number false m).
Proof.
  intros Hm. unfold nonnegative, to_number, round_magnitude.
  destruct (m <? 2 ^ 53)%Z; [right; eauto|].
  match goal with |- context [(2 ^ 1024 <=? ?v)%Z] =>
    destruct (2 ^ 1024 <=? v)%Z; [left; reflexivity|];
    right; exists v; split; [reflexivity|]
  end.
  apply Z.shiftl_nonneg.
  assert (Hq : (0 <= Z.shiftr m (Z.log2 m - 52))%Z) by now apply Z.shiftr_nonneg.
  match goal with |- context [if ?b then _ else _] => destruct b end; lia.
Qed.

(** [parseInt] of a run that starts with a digit: the digits up to the
    first character that is not one, as a double. *)
Lemma parseInt10_digits d s :
  is_digit d = true -> parseInt10 (d :: s) = to_number false (digits_acc 0 (d :: s)).
Proof.
  intros Hd. destruct (digit_plain d Hd) as (Hw & Hm & Hp).
  unfold parseInt10. cbn [trimStart]. rewrite Hw, Hm, Hp.
  cbn [starts_with_digit]. rewrite Hd. reflexivity.
Qed.

(** Whatever the parser builds from a line has a trimmed risk and a score
    that is not NaN and not below zero. *)
Lemma parse_line_record line r :
  is_record_of line r ->
  trim (risk r) = risk r /\ nonnegative (score r).
Proof.
  unfold is_record_of. intros H.
  destruct (parse_line_cases line) as [[_ Hn] | [_ (g1 & g2 & d & g3 & Hd & Hr)]].
  - congruence.
  - rewrite Hr in H. injection H as <-. simpl.
    split; [apply JSFacts.trim_idem|].
    rewrite (parseInt10_digits d g3 Hd). apply to_number_nonneg.
    apply digits_acc_nonneg. lia.
Qed.

End TrendingFacts.

(** ** The reference JSON parser obeys the grammar's first-character rule *)

Module JsonFacts.
Import JS Json.

Lemma parse_value_start fuel s v rest :
  parse_value fuel s = Some (v, rest) ->
  exists c r, skip_ws s = c :: r /\ value_start c = true.
Proof.
  destruct fuel as [|f]; simpl; [discriminate|].
  destruct (skip_ws s) as [|c r]; [discriminate|].
  intros H. exists c, r. split; [reflexivity|].
  unfold value_start. revert H.
  destruct (c =? 123), (c =? 91), (c =? 34), (c =? 116), (c =? 102),
    (c =? 110), (c =? 45), (is_digit c);
    simpl; intros H; try reflexivity; discriminate.
Qed.

Lemma parse_start s v :
  parse s = Ok v -> exists c r, skip_ws s = c :: r /\ value_start c = true.
Proof.
  unfold parse.
  destruct (parse_value (2 * List.length s + 2) s) as [[w rest]|] eqn:E; [|discriminate].
  intros _. eapply parse_value_start. exact E.
Qed.

(** A character that can begin a JSON value is neither white space nor a
    backtick. *)
Lemma value_start_plain c :
  value_start c = true -> is_white c = false /\ (c =? 96) = false.
Proof.
  unfold value_start, is_digit, is_white. intros H.
  repeat match type of H with
    | context [(?a <=? ?b)] => destruct (N.leb_spec a b)
    | context [(?a =? ?b)] => destruct (N.eqb_spec a b)
    end;
  simpl in H; try discriminate;
  repeat match goal with
    | |- context [(?a <=? ?b)] => destruct (N.leb_spec a b); try lia
    | |- context [(?a =? ?b)] => destruct (N.eqb_spec a b); try lia
    end;
  simpl; auto.
Qed.

Lemma is_ws_white c : is_ws c = true -> is_white c = true.
Proof.
  unfold is_ws, is_white. intros H.
  repeat match type of H with
    | context [(?a =? ?b)] => destruct (N.eqb_spec a b); [subst; reflexivity|]
    end.
  discriminate.
Qed.

(** JSON white space is JavaScript white space, so trimming skips it. *)
Lemma trimStart_skip_ws s : trimStart (skip_ws s) = trimStart s.
Proof.
  induction s as [|c s IH]; simpl; [reflexivity|].
  destruct (is_ws c) eqn:E.
  - rewrite (is_ws_white c E). exact IH.
  - reflexivity.
Qed.

End JsonFacts.

(** ** Fence stripping *)

Module NormalizerFacts.
Import JS Json Service JSFacts.
Local Open Scope nat_scope.

Lemma startsWith_app p s : startsWith p (p ++ s) = true.
Proof.
  induction p as [|c p IH]; simpl; [reflexivity|].
  now rewrite N.eqb_refl.
Qed.

Lemma startsWith_head x p c r :
  (c =? x)%N = false -> startsWith (x :: p) (c :: r) = false.
Proof.
  intros H. cbn [startsWith]. now rewrite N.eqb_sym, H.
Qed.

(** Trimming on the right stops at a last character that is not white space. *)
Lemma trimEnd_last (c : N) (s : jsstring) :
  is_white c = false -> trimEnd (s ++ [c]) = s ++ [c].
Proof.
  intros Hc. unfold trimEnd. rewrite rev_app_distr. cbn [rev app].
  rewrite (trimStart_fixed c (rev s) Hc). cbn [rev].
  now rewrite rev_involutive.
Qed.

(** A text whose first and last characters are backticks is its own trim. *)
Lemma trim_between_backticks (mid : jsstring) :
  trim (96%N :: mid ++ [96%N]) = 96%N :: mid ++ [96%N].
Proof.
  unfold trim. rewrite trimStart_fixed by reflexivity.
  apply (trimEnd_last 96%N (96%N :: mid)). reflexivity.
Qed.

(** Cutting the 7 characters of the opening fence and the 3 of the closing
    one gives back what stood between them. *)
Lemma substring_fenced (t : jsstring) :
  let text := lit "```json" ++ t ++ lit "```" in
  substring 7 (Z.of_nat (List.length text) - 3) text = t.
Proof.
  intros text. unfold substring, clamp.
  assert (Hlen : List.length text = 7 + List.length t + 3).
  { unfold text. rewrite !length_app. simpl. lia. }
  rewrite Hlen.
  replace (Z.to_nat (Z.of_nat (7 + List.length t + 3) - 3)) with (7 + List.length t) by lia.
  change (Z.to_nat 7) with 7.
  replace (Nat.min 7 (7 + List.length t + 3)) with 7 by lia.
  replace (Nat.min (7 + List.length t) (7 + List.length t + 3)) with (7 + List.length t) by lia.
  replace (Nat.min 7 (7 + List.length t)) with 7 by lia.
  replace (Nat.max 7 (7 + List.length t)) with (7 + List.length t) by lia.
  replace (7 + List.length t - 7) with (List.length t) by lia.
  unfold text. change (skipn 7 (lit "```json" ++ t ++ lit "```")) with (t ++ lit "```").
  rewrite firstn_app, firstn_all, Nat.sub_diag. simpl. apply app_nil_r.
Qed.

Lemma trimStart_white_app w s :
  forallb is_white w = true -> trimStart (w ++ s) = trimStart s.
Proof.
  induction w as [|c w IH]; simpl; [reflexivity|].
  intros H. apply andb_true_iff in H as [Hc Hw]. rewrite Hc. auto.
Qed.

Lemma forallb_rev {A : Type} (f : A -> bool) l :
  forallb f (rev l) = forallb f l.
Proof.
  induction l as [|a l IH]; simpl; [reflexivity|].
  rewrite forallb_app, IH. simpl. rewrite andb_true_r. apply andb_comm.
Qed.

Lemma trimEnd_white_app s w :
  forallb is_white w = true -> trimEnd (s ++ w) = trimEnd s.
Proof.
  intros Hw. unfold trimEnd. rewrite rev_app_distr.
  rewrite trimStart_white_app; [reflexivity|]. now rewrite forallb_rev.
Qed.

Lemma trimStart_app_cases s w :
  forallb is_white w = true ->
  trimStart (s ++ w) = trimStart s ++ (if forallb is_white s then [] else w).
Proof.
  intros Hw. induction s as [|c s IH]; simpl.
  - rewrite (trimStart_white w Hw). reflexivity.
  - destruct (is_white c); simpl; [exact IH | reflexivity].
Qed.

(** White space around a text does not change its trim. *)
Lemma trim_surrounded w1 s w2 :
  forallb is_white w1 = true -> forallb is_white w2 = true ->
  trim (w1 ++ s ++ w2) = trim s.
Proof.
  intros H1 H2. unfold trim.
  rewrite (trimStart_white_app w1 (s ++ w2) H1), (trimStart_app_cases s w2 H2).
  destruct (forallb is_white s).
  - now rewrite app_nil_r.
  - now apply trimEnd_white_app.
Qed.

Section Fence.
Variable JSON_parse : jsstring -> Result json.

(** With the fence on, the normalizer parses the trimmed inside. *)
Lemma cleanAndParseJson_fenced (t : jsstring) :
  cleanAndParseJson JSON_parse (lit "```json" ++ t ++ lit "```")
  = JSON_parse (trim t).
Proof.
  unfold cleanAndParseJson.
  assert (E : lit "```json" ++ t ++ lit "```"
              = 96%N :: (lit "``json" ++ t ++ lit "``") ++ [96%N]).
  { simpl. rewrite <- app_assoc. reflexivity. }
  assert (Htrim : trim (lit "```json" ++ t ++ lit "```") = lit "```json" ++ t ++ lit "```").
  { rewrite E. apply trim_between_backticks. }
  rewrite Htrim, startsWith_app.
  pose proof (substring_fenced t) as Hs. cbv zeta in Hs. rewrite Hs. reflexivity.
Qed.

(** Without a fence, the trimmed text goes to the parser as it is. *)
Lemma cleanAndParseJson_plain (t : jsstring) c r :
  trim t = c :: r -> (c =? 96)%N = false ->
  cleanAndParseJson JSON_parse t = JSON_parse (trim t).
Proof.
  intros Ht Hc. unfold cleanAndParseJson. rewrite Ht.
  change (lit "```json") with (96%N :: lit "``json").
  change (lit "```") with (96%N :: lit "``").
  rewrite !(startsWith_head _ _ _ _ Hc). reflexivity.
Qed.
End Fence.

End NormalizerFacts.

(** ** Call sites *)

Module CallSiteFacts.
Import JS Json Service.

(** The shape shared by the four call sites that expect JSON. *)
Lemma json_call_site gen jp req fallback :
  falls_back_to gen jp req fallback
    (io_try
       (response <~ await_generateContent gen req ;;
        io_lift (cleanAndParseJson jp (text response)))
       (fun error => io_ret fallback)).
Proof.
  unfold falls_back_to, await_generateContent, io_try, io_bind, io_lift, io_ret, outcome.
  destruct (gen req) as [response|e0]; simpl.
  - destruct (cleanAndParseJson jp (text response)) as [v|e1] eqn:Hc; simpl.
    + split; [eauto|]. split; [discriminate|].
      intros response' e Hr He. injection Hr as <-. congruence.
    + split; [eauto|]. split; [discriminate|]. reflexivity.
  - split; [eauto|]. split; [reflexivity|]. discriminate.
Qed.

Lemma returns_of_falls_back gen jp req fallback op :
  falls_back_to gen jp req fallback op -> exists v, outcome op = Ok v.
Proof. intros [H _]. exact H. Qed.

Lemma getChatbotResponse_returns send message :
  exists v, outcome (getChatbotResponse send message) = Ok v.
Proof.
  unfold getChatbotResponse, await_sendMessage, io_try, io_bind, io_ret, outcome.
  destruct (send message); simpl; eauto.
Qed.

Lemma getVoiceAssistantResponse_returns gen query :
  exists v, outcome (getVoiceAssistantResponse gen query) = Ok v.
Proof.
  unfold getVoiceAssistantResponse, await_generateContent, io_try, io_bind, io_ret, outcome.
  destruct (gen (assistant_request query)); simpl; eauto.
Qed.

Lemma getTrendingTopics_returns gen :
  exists v, outcome (getTrendingTopics gen) = Ok v.
Proof.
  unfold getTrendingTopics, await_generateContent, io_try, io_bind, io_lift, io_ret, outcome.
  destruct (gen trending_request) as [response|e]; simpl; [|eauto].
  destruct (parse_topics (text response)) as [topics|e]; simpl; [|eauto].
  destruct (0 <? List.length topics)%nat; simpl; [eauto|].
  destruct (truthy (text response)); simpl; eauto.
Qed.

(** Every run of the template generator makes exactly one model call. *)
Lemma generateAwarenessTemplateText_trace gen jp prompt :
  trace (generateAwarenessTemplateText gen jp prompt)
  = [GenerateContent (template_request prompt)].
Proof.
  unfold generateAwarenessTemplateText, await_generateContent, io_try, io_bind,
    io_lift, io_ret, trace.
  destruct (gen (template_request prompt)) as [response|e]; simpl; [|reflexivity].
  destruct (cleanAndParseJson jp (text response)); reflexivity.
Qed.

End CallSiteFacts.

Module ListFacts.

Lemma Forall2_firstn {A B : Type} (P : A -> B -> Prop) n : forall l l',
  Forall2 P l l' -> Forall2 P (firstn n l) (firstn n l').
Proof.
  induction n as [|n IH]; intros l l' H; simpl; [constructor|].
  destruct H; [constructor|]. constructor; auto.
Qed.

Lemma Forall2_In_right {A B : Type} (P : A -> B -> Prop) l l' b :
  Forall2 P l l' -> In b l' -> exists a, In a l /\ P a b.
Proof.
  induction 1 as [|a b' l l' Hab _ IH]; simpl; [tauto|].
  intros [<-|Hin].
  - exists a. auto.
  - destruct (IH Hin) as (a' & Ha' & HP). exists a'. auto.
Qed.

Lemma In_firstn {A : Type} n : forall (l : list A) x, In x (firstn n l) -> In x l.
Proof.
  induction n as [|n IH]; intros [|a l] x; simpl; try tauto.
  intros [->|H]; [now left | right; auto].
Qed.

End ListFacts.

(** * The specification's properties *)

Module NormalizerSpec.
Import JS Json Service Samples JSFacts JsonFacts NormalizerFacts.

Section FencedJson.
Variable JSON_parse : jsstring -> Result json.

(** The one fact about [JSON.parse] that fence stripping relies on: a text
    it accepts has, after JSON white space, a character that can begin a
    JSON value. *)
Hypothesis JSON_parse_first :
  forall s v, JSON_parse s = Ok v ->
              exists c r, skip_ws s = c :: r /\ value_start c = true.

Lemma json_text_trimmed t v :
  JSON_parse t = Ok v ->
  exists c r, trim t = c :: r /\ (c =? 96)%N = false.
Proof.
  intros Hv. destruct (JSON_parse_first t v Hv) as (c & r & Hs & Hc).
  destruct (value_start_plain c Hc) as [Hw Hb].
  assert (Ht : trimStart t = c :: r).
  { rewrite <- trimStart_skip_ws, Hs. now apply trimStart_fixed. }
  unfold trim. rewrite Ht.
  destruct (trimEnd_head c r Hw) as [r' ->]. eauto.
Qed.

(** With or without the fence, a text the parser accepts gives the same
    result. *)
Lemma fenced_json_same_result (t : jsstring) (v : json) :
  JSON_parse t = Ok v ->
  cleanAndParseJson JSON_parse (lit "```json" ++ t ++ lit "```")
  = cleanAndParseJson JSON_parse t.
Proof.
  intros Hv. destruct (json_text_trimmed t v Hv) as (c & r & Ht & Hc).
  rewrite cleanAndParseJson_fenced.
  symmetry. eapply cleanAndParseJson_plain; eassumption.
Qed.

(** C1.  For every JSON value [v]: whatever text the parser reads as [v],
    the normalizer returns the same result for it with and without a code
    fence tagged json; and for a JSON text of [v] that has no white space
    around it, with any white space put around it (such as the line breaks
    inside a fence), the normalizer returns [v] itself, fenced or not. *)
Theorem fenced_json_same_value :
  (forall t v,
      JSON_parse t = Ok v ->
      cleanAndParseJson JSON_parse (lit "```json" ++ t ++ lit "```")
      = cleanAndParseJson JSON_parse t)
  /\ (forall t v w1 w2,
        JSON_parse t = Ok v ->
        trim t = t ->
        forallb is_white w1 = true -> forallb is_white w2 = true ->
        cleanAndParseJson JSON_parse (lit "```json" ++ (w1 ++ t ++ w2) ++ lit "```") = Ok v
        /\ cleanAndParseJson JSON_parse (w1 ++ t ++ w2) = Ok v).
Proof.
  split; [exact fenced_json_same_result|].
  intros t v w1 w2 Hv Ht H1 H2.
  destruct (json_text_trimmed t v Hv) as (c & r & Hc & Hb).
  pose proof (trim_surrounded w1 t w2 H1 H2) as Hpad.
  split.
  - rewrite cleanAndParseJson_fenced, Hpad, Ht. exact Hv.
  - rewrite (cleanAndParseJson_plain JSON_parse (w1 ++ t ++ w2) c r);
      [now rewrite Hpad, Ht | now rewrite Hpad | exact Hb].
Qed.
End FencedJson.

Lemma fenced_json_same_value_witness :
  Json.parse verdict_text = Ok verdict_value
  /\ cleanAndParseJson Json.parse
       (lit "```json" ++ ([10%N] ++ verdict_text ++ [10%N]) ++ lit "```")
     = Ok verdict_value
  /\ cleanAndParseJson Json.parse ([10%N] ++ verdict_text ++ [10%N]) = Ok verdict_value.
Proof.
  assert (Hv : Json.parse verdict_text = Ok verdict_value) by (vm_compute; reflexivity).
  split; [exact Hv|].
  destruct (fenced_json_same_value Json.parse parse_start) as [_ Hvalue].
  apply (Hvalue verdict_text verdict_value [10%N] [10%N] Hv); reflexivity.
Defined.

End NormalizerSpec.

Module CallSiteSpec.
Import JS Json Service Samples CallSiteFacts.

(** C2.  The four analysis operations never throw: each one returns a
    value for every input and every behaviour of the model, and returns
    its own fallback whenever the model call fails or the response text
    does not parse. *)
Theorem analysis_never_throws
    (generateContent : Request -> Result Response)
    (JSON_parse : jsstring -> Result json) :
  (forall base64Image mimeType,
      falls_back_to generateContent JSON_parse
        (image_request base64Image mimeType) image_fallback
        (analyzeImageForAI generateContent JSON_parse base64Image mimeType))
  /\ (forall base64Audio mimeType,
      falls_back_to generateContent JSON_parse
        (voice_request base64Audio mimeType) voice_fallback
        (analyzeVoiceForAI generateContent JSON_parse base64Audio mimeType))
  /\ (forall content,
      falls_back_to generateContent JSON_parse
        (article_request content) article_fallback
        (analyzeArticleContent generateContent JSON_parse content))
  /\ (forall prompt,
      falls_back_to generateContent JSON_parse
        (template_request prompt) template_fallback
        (generateAwarenessTemplateText generateContent JSON_parse prompt)).
Proof.
  split; [|split; [|split]]; intros; apply json_call_site.
Qed.

Lemma analysis_never_throws_witness :
  outcome (analyzeImageForAI unreachable Json.parse [] (lit "image/png"))
  = Ok (JObject [(lit "classification", JString (lit "Uncertain"));
                 (lit "confidence", JNumber 0 0);
                 (lit "explanation", JString (lit "An error occurred during analysis."))])
  /\ outcome (analyzeImageForAI (answering truncated_text) Json.parse [] (lit "image/png"))
     = Ok image_fallback.
Proof.
  destruct (analysis_never_throws unreachable Json.parse) as [Himage _].
  destruct (analysis_never_throws (answering truncated_text) Json.parse) as [Himage' _].
  split.
  - destruct (Himage [] (lit "image/png")) as (_ & Hfail & _).
    apply (Hfail (Rejected (lit "fetch failed"))). reflexivity.
  - destruct (Himage' [] (lit "image/png")) as (_ & _ & Hparse).
    apply (Hparse {| text := truncated_text |} SyntaxError); [reflexivity|].
    vm_compute; reflexivity.
Defined.

End CallSiteSpec.

Module TrendingSpec.
Import JS Regex Service Samples TrendingFacts ListFacts.
Local Open Scope nat_scope.

(** C3.  The line "1. Fake vaccine claim - Risk: High - Credibility: 12"
    gives exactly the record with topic "Fake vaccine claim", risk "High"
    and score 12. *)
Theorem vaccine_line_record :
  parse_line (lit "1. Fake vaccine claim - Risk: High - Credibility: 12")
  = Ok (Some {| topic := lit "Fake vaccine claim"; risk := lit "High"; score := Int 12 |})
  /\ parse_topics (lit "1. Fake vaccine claim - Risk: High - Credibility: 12")
     = Ok [{| topic := lit "Fake vaccine claim"; risk := lit "High"; score := Int 12 |}].
Proof.
  split; vm_compute; reflexivity.
Qed.

(** C4.  For every list of lines the parser returns one record per
    matching line, in the order of the lines, and nothing for the others;
    so for seven lines of which two match it returns the records of those
    two, in their order. *)
Theorem matching_lines_kept_in_order (lines : list jsstring) :
  exists records,
    parse_lines lines = Ok records
    /\ Forall2 is_record_of (filter matches_pattern lines) records
    /\ (forall line,
          In line lines -> matches_pattern line = false ->
          parse_line line = Ok None)
    /\ (forall a b,
          List.length lines = 7 ->
          filter matches_pattern lines = [a; b] ->
          exists ra rb,
            is_record_of a ra /\ is_record_of b rb /\ records = [ra; rb]).
Proof.
  destruct (parse_lines_spec lines) as (records & Hp & Hrec).
  exists records. split; [exact Hp|]. split; [exact Hrec|].
  split; [intros line _ Hno; now apply parse_line_not_matching|].
  intros a b _ Hab. rewrite Hab in Hrec.
  inversion Hrec as [|? ra ? rest Ha Hrest]; subst.
  inversion Hrest as [|? rb ? rest' Hb Hnil]; subst.
  inversion Hnil; subst.
  exists ra, rb. auto.
Qed.

Lemma matching_lines_kept_in_order_witness :
  List.length seven_lines = 7
  /\ filter matches_pattern seven_lines = [vaccine_line; moon_line]
  /\ parse_lines seven_lines = Ok [vaccine_topic; moon_topic].
Proof.
  split; [reflexivity|].
  assert (Hf : filter matches_pattern seven_lines = [vaccine_line; moon_line])
    by (vm_compute; reflexivity).
  split; [exact Hf|].
  destruct (matching_lines_kept_in_order seven_lines) as (records & Hp & _ & _ & H7).
  destruct (H7 vaccine_line moon_line eq_refl Hf) as (ra & rb & Ha & Hb & ->).
  assert (Ea : parse_line vaccine_line = Ok (Some vaccine_topic)) by (vm_compute; reflexivity).
  assert (Eb : parse_line moon_line = Ok (Some moon_topic)) by (vm_compute; reflexivity).
  unfold is_record_of in Ha, Hb.
  rewrite Ea in Ha. rewrite Eb in Hb.
  injection Ha as <-. injection Hb as <-. exact Hp.
Defined.

(** C5.  When more than five lines of the response match, exactly five
    records are returned: those of the first five matching lines, in the
    order of the response. *)
Theorem first_five_matching_records
    (generateContent : Request -> Result Response) (response : Response) :
  generateContent trending_request = Ok response ->
  5 < List.length (filter matches_pattern (split_nl (text response))) ->
  exists records,
    outcome (getTrendingTopics generateContent) = Ok records
    /\ List.length records = 5
    /\ Forall2 is_record_of
         (firstn 5 (filter matches_pattern (split_nl (text response)))) records.
Proof.
  intros Hgen Hmany.
  destruct (parse_lines_spec (split_nl (text response))) as (all & Hp & Hrec).
  pose proof (Forall2_length Hrec) as Hlen.
  exists (firstn 5 all).
  split; [|split].
  - unfold getTrendingTopics, await_generateContent, io_try, io_bind, io_lift, outcome.
    rewrite Hgen. unfold parse_topics. rewrite Hp. simpl.
    destruct (Nat.ltb_spec 0 (List.length all)) as [_|Hz]; [reflexivity | lia].
  - rewrite length_firstn. lia.
  - now apply Forall2_firstn.
Qed.

Lemma first_five_matching_records_witness :
  outcome (getTrendingTopics (answering six_topics_text))
  = Ok (List.map numbered_topic [1; 2; 3; 4; 5]%N)
  /\ firstn 5 (filter matches_pattern (split_nl six_topics_text))
     = List.map numbered_line [1; 2; 3; 4; 5]%N.
Proof.
  assert (Hmany : 5 < List.length (filter matches_pattern (split_nl six_topics_text)))
    by (vm_compute; lia).
  destruct (first_five_matching_records (answering six_topics_text)
              {| text := six_topics_text |} eq_refl Hmany) as (records & Hout & _ & _).
  split; [|vm_compute; reflexivity].
  rewrite Hout. vm_compute in Hout. injection Hout as <-. vm_compute. reflexivity.
Defined.

(** C6.  When the model answers with a non-empty text none of whose lines
    matches, the single placeholder record is returned; when the model
    call fails, the single error record is returned. *)
Theorem placeholder_and_error_records
    (generateContent : Request -> Result Response) :
  (forall response,
      generateContent trending_request = Ok response ->
      truthy (text response) = true ->
      filter matches_pattern (split_nl (text response)) = [] ->
      outcome (getTrendingTopics generateContent) = Ok [placeholder_topic])
  /\ (forall e,
      generateContent trending_request = Throw e ->
      outcome (getTrendingTopics generateContent) = Ok [error_topic]).
Proof.
  split.
  - intros response Hgen Htext Hnone.
    destruct (parse_lines_spec (split_nl (text response))) as (all & Hp & Hrec).
    rewrite Hnone in Hrec. inversion Hrec; subst.
    unfold getTrendingTopics, await_generateContent, io_try, io_bind, io_lift, outcome.
    rewrite Hgen. unfold parse_topics. rewrite Hp. simpl. rewrite Htext. reflexivity.
  - intros e Hgen.
    unfold getTrendingTopics, await_generateContent, io_try, io_bind, io_lift, outcome.
    rewrite Hgen. reflexivity.
Qed.

Lemma placeholder_and_error_records_witness :
  outcome (getTrendingTopics (answering (lit "I could not find anything today.")))
  = Ok [{| topic := lit "Could not parse trending topics."; risk := lit "Medium"; score := Int 50 |}]
  /\ outcome (getTrendingTopics unreachable)
     = Ok [{| topic := lit "Error fetching topics."; risk := lit "High"; score := Int 0 |}].
Proof.
  split.
  - destruct (placeholder_and_error_records
                (answering (lit "I could not find anything today."))) as [H _].
    apply (H {| text := lit "I could not find anything today." |}).
    + reflexivity.
    + reflexivity.
    + vm_compute; reflexivity.
  - destruct (placeholder_and_error_records unreachable) as [_ H].
    apply (H (Rejected (lit "fetch failed"))). reflexivity.
Defined.

(** C10.  When the model call succeeds with an empty text, the result is
    the empty list: neither the placeholder nor the error record. *)
Theorem empty_text_gives_no_topics
    (generateContent : Request -> Result Response) (response : Response) :
  generateContent trending_request = Ok response ->
  text response = [] ->
  outcome (getTrendingTopics generateContent) = Ok [].
Proof.
  intros Hgen Hempty.
  unfold getTrendingTopics, await_generateContent, io_try, io_bind, io_lift, outcome.
  rewrite Hgen, Hempty. reflexivity.
Qed.

Lemma empty_text_gives_no_topics_witness :
  outcome (getTrendingTopics (answering [])) = Ok [].
Proof.
  apply (empty_text_gives_no_topics (answering []) {| text := [] |}); reflexivity.
Defined.

End TrendingSpec.

Module RangeSpec.
Import JS Regex Service Samples TrendingFacts ListFacts.

(** C8, as the specification states it, fails: a line whose risk is not one
    of the four levels and whose credibility exceeds 100 is parsed into a
    record and returned as it is. *)
Lemma documented_range_counterexample :
  ~ (forall (generateContent : Request -> Result Response) response records r line,
        generateContent trending_request = Ok response ->
        outcome (getTrendingTopics generateContent) = Ok records ->
        In r records ->
        In line (split_nl (text response)) ->
        is_record_of line r ->
        documented_range r).
Proof.
  intros H.
  assert (Hout : outcome (getTrendingTopics (answering critical_line)) = Ok [critical_topic])
    by (vm_compute; reflexivity).
  assert (Hrec : is_record_of critical_line critical_topic)
    by (vm_compute; reflexivity).
  specialize (H (answering critical_line) {| text := critical_line |}
                [critical_topic] critical_topic critical_line
                eq_refl Hout (or_introl eq_refl) (or_introl eq_refl) Hrec).
  destruct H as [_ (z & Hz & Hrange)].
  simpl in Hz. injection Hz as <-. lia.
Qed.

(** C8, amended.  Every record that [getTrendingTopics] returns has a risk
    text without white space at either end and a score that is a number
    not below zero: +0, a positive integer value or +Infinity, never NaN.
    The risk is not confined to the four levels and the score has no upper
    bound. *)
Theorem returned_topics_shape
    (generateContent : Request -> Result Response) records r :
  outcome (getTrendingTopics generateContent) = Ok records ->
  In r records ->
  trim (risk r) = risk r /\ nonnegative (score r).
Proof.
  unfold getTrendingTopics, await_generateContent, io_try, io_bind, io_lift, io_ret, outcome.
  destruct (generateContent trending_request) as [response|e]; [|simpl].
  - unfold parse_topics.
    destruct (parse_lines_spec (split_nl (text response))) as (all & Hp & Hrec).
    rewrite Hp. cbn -[slice0 Nat.ltb].
    destruct (0 <? List.length all)%nat.
    + intros Hout Hin.
      change (Ok (firstn 5 all) = Ok records) in Hout.
      assert (Hrecords : firstn 5 all = records) by congruence.
      rewrite <- Hrecords in Hin. apply In_firstn in Hin.
      destruct (Forall2_In_right _ _ _ _ Hrec Hin) as (line & _ & Hline).
      exact (parse_line_record line r Hline).
    + destruct (truthy (text response)); intros Hout Hin; injection Hout as <-.
      * destruct Hin as [<-|[]]. split; [reflexivity|].
        right. exists 50%Z. split; [reflexivity | lia].
      * destruct Hin.
  - intros Hout Hin. injection Hout as <-.
    destruct Hin as [<-|[]]. split; [reflexivity|].
    right. exists 0%Z. split; [reflexivity | lia].
Qed.

Lemma returned_topics_shape_witness :
  (outcome (getTrendingTopics (answering critical_line)) = Ok [critical_topic]
   /\ trim (risk critical_topic) = risk critical_topic
   /\ nonnegative (score critical_topic))
  /\ (outcome (getTrendingTopics (answering endless_line)) = Ok [endless_topic]
      /\ score endless_topic = Infinity false
      /\ nonnegative (score endless_topic)).
Proof.
  assert (Hout : outcome (getTrendingTopics (answering critical_line)) = Ok [critical_topic])
    by (vm_compute; reflexivity).
  assert (Hout' : outcome (getTrendingTopics (answering endless_line)) = Ok [endless_topic])
    by (vm_compute; reflexivity).
  split.
  - split; [exact Hout|].
    apply (returned_topics_shape (answering critical_line) [critical_topic] critical_topic Hout).
    left. reflexivity.
  - split; [exact Hout'|]. split; [reflexivity|].
    apply (returned_topics_shape (answering endless_line) [endless_topic] endless_topic Hout').
    left. reflexivity.
Defined.

End RangeSpec.

Module PageSpec.
Import JS Json Service Samples AwarenessTemplatesPage JSFacts CallSiteFacts.

(** A prompt with something other than white space in it does reach the
    model, once. *)
Lemma handleGenerate_calls_gateway gen jp st :
  trim (prompt st) <> [] ->
  trace (handleGenerate gen jp st) = [GenerateContent (template_request (prompt st))].
Proof.
  intros Hp. unfold handleGenerate.
  destruct (trim (prompt st)) as [|c r] eqn:Ht; [congruence|]. simpl negb. cbv iota.
  pose proof (generateAwarenessTemplateText_trace gen jp (prompt st)) as Htr.
  unfold trace in *. cbn [prompt setError setResult setIsLoading].
  destruct (generateAwarenessTemplateText gen jp (prompt st)) as [t [v|e]];
    simpl in *; subst t; reflexivity.
Qed.

(** C7.  A prompt that is empty or all white space is rejected: the error
    message is set, nothing else changes, and no call is made, so the
    model gateway is never reached. *)
Theorem blank_prompt_rejected
    (generateContent : Request -> Result Response)
    (JSON_parse : jsstring -> Result json) (st : State) :
  forallb is_white (prompt st) = true ->
  trace (handleGenerate generateContent JSON_parse st) = []
  /\ outcome (handleGenerate generateContent JSON_parse st)
     = Ok (setError (Some (lit "Prompt cannot be empty.")) st).
Proof.
  intros Hblank. unfold handleGenerate.
  rewrite (trim_white (prompt st) Hblank). simpl. split; reflexivity.
Qed.

Lemma blank_prompt_rejected_witness :
  let st := {| prompt := blank_prompt; isLoading := false; result := None;
               error := None; isCopied := false |} in
  trace (handleGenerate (answering verdict_text) Json.parse st) = []
  /\ outcome (handleGenerate (answering verdict_text) Json.parse st)
     = Ok {| prompt := blank_prompt; isLoading := false; result := None;
             error := Some (lit "Prompt cannot be empty."); isCopied := false |}.
Proof.
  intros st.
  apply (blank_prompt_rejected (answering verdict_text) Json.parse st).
  reflexivity.
Defined.

End PageSpec.

Module StartupSpec.
Import JS Json Service Samples CallSiteFacts.

(** C9.  Without the credential the module does not load: it throws before
    the client or the chat session is created.  Nothing else in the
    service layer is fatal: with the credential the module loads, and each
    of its seven exported operations returns a value whatever the model,
    the chat session and the JSON parser do. *)
Theorem missing_credential_is_the_only_fatal_error :
  load None = ([], Throw (Error (lit "API_KEY environment variable not set")))
  /\ (forall API_KEY,
        not_set API_KEY = true ->
        load API_KEY = ([], Throw (Error (lit "API_KEY environment variable not set"))))
  /\ (forall API_KEY,
        not_set API_KEY = false ->
        exists key,
          API_KEY = Some key
          /\ load API_KEY
             = ([NewGoogleGenAI key; ChatsCreate gemini_flash chat_instruction], Ok tt))
  /\ (forall (generateContent : Request -> Result Response)
             (sendMessage : jsstring -> Result Response)
             (JSON_parse : jsstring -> Result json),
        (forall message, exists v,
            outcome (getChatbotResponse sendMessage message) = Ok v)
        /\ (forall image mimeType, exists v,
            outcome (analyzeImageForAI generateContent JSON_parse image mimeType) = Ok v)
        /\ (forall audio mimeType, exists v,
            outcome (analyzeVoiceForAI generateContent JSON_parse audio mimeType) = Ok v)
        /\ (forall content, exists v,
            outcome (analyzeArticleContent generateContent JSON_parse content) = Ok v)
        /\ (forall prompt, exists v,
            outcome (generateAwarenessTemplateText generateContent JSON_parse prompt) = Ok v)
        /\ (exists v, outcome (getTrendingTopics generateContent) = Ok v)
        /\ (forall query, exists v,
            outcome (getVoiceAssistantResponse generateContent query) = Ok v)).
Proof.
  split; [reflexivity|]. split; [|split].
  - intros [key|] Hk; [|reflexivity].
    unfold load. rewrite Hk. reflexivity.
  - intros [key|] Hk; [|discriminate].
    exists key. split; [reflexivity|]. unfold load. rewrite Hk. reflexivity.
  - intros gen send jp.
    split; [intros; apply getChatbotResponse_returns|].
    split; [intros; eapply returns_of_falls_back, json_call_site|].
    split; [intros; eapply returns_of_falls_back, json_call_site|].
    split; [intros; eapply returns_of_falls_back, json_call_site|].
    split; [intros; eapply returns_of_falls_back, json_call_site|].
    split; [apply getTrendingTopics_returns|].
    intros; apply getVoiceAssistantResponse_returns.
Qed.

Lemma missing_credential_is_the_only_fatal_error_witness :
  load (Some []) = ([], Throw (Error (lit "API_KEY environment variable not set")))
  /\ load (Some (lit "k"))
     = ([NewGoogleGenAI (lit "k"); ChatsCreate gemini_flash chat_instruction], Ok tt).
Proof.
  destruct missing_credential_is_the_only_fatal_error as (_ & Hunset & Hset & _).
  split.
  - apply (Hunset (Some [])). reflexivity.
  - destruct (Hset (Some (lit "k")) eq_refl) as (key & Hkey & Hload).
    injection Hkey as <-. exact Hload.
Defined.

End StartupSpec.

(** * Further properties of the code

    The rest of the development covers what the statements above leave
    out: which lines the trending pattern matches and what it reads from
    them, how the normalizer treats other fences, what reaches the model,
    and what the two pages show. *)

(** ** The lines the pattern matches *)

Module ShapeFacts.
Import JS Regex Matching MatcherFacts Service Shapes TrendingFacts.
Local Open Scope nat_scope.

(** *** What a path consumes *)

Lemma firstn_skipn_word {A : Type} (n : nat) (s : list A) :
  n <= List.length s ->
  exists w, s = w ++ skipn n s /\ List.length w = n /\ firstn n s = w.
Proof.
  intros Hn. exists (firstn n s).
  split; [now rewrite firstn_skipn|]. split; [|reflexivity].
  rewrite length_firstn. lia.
Qed.

(** A path consumes a prefix of the input and moves the index by its
    length. *)
Lemma matches_consumes r i s caps i' s' caps' :
  matches r i s caps i' s' caps' ->
  exists w, s = w ++ s' /\ i' = i + List.length w.
Proof.
  induction 1;
    try (exists []; split; [reflexivity | simpl; lia]).
  - exists [c]. split; [reflexivity | simpl; lia].
  - destruct (firstn_skipn_word n s H) as (w & Hw & Hl & _). exists w. split; [exact Hw | lia].
  - destruct (firstn_skipn_word n s H) as (w & Hw & Hl & _). exists w. split; [exact Hw | lia].
  - destruct (firstn_skipn_word n s) as (w & Hw & Hl & _); [lia|]. exists w. split; [exact Hw | lia].
  - exact IHmatches.
  - exact IHmatches.
  - destruct IHmatches1 as (w1 & -> & ->). destruct IHmatches2 as (w2 & -> & ->).
    exists (w1 ++ w2). rewrite length_app, app_assoc. split; [reflexivity | lia].
  - exact IHmatches.
  - exact IHmatches.
Qed.

Lemma star_word cc i s caps i' s' caps' :
  matches (Star cc) i s caps i' s' caps' ->
  exists w, s = w ++ s' /\ forallb (accepts cc) w = true.
Proof.
  inversion 1; subst.
  destruct (firstn_skipn_word n s) as (w & Hw & _ & Hf); [assumption|].
  exists w. split; [exact Hw | now rewrite <- Hf].
Qed.

Lemma lazy_word cc i s caps i' s' caps' :
  matches (LazyStar cc) i s caps i' s' caps' ->
  exists w, s = w ++ s' /\ forallb (accepts cc) w = true.
Proof.
  inversion 1; subst.
  destruct (firstn_skipn_word n s) as (w & Hw & _ & Hf); [assumption|].
  exists w. split; [exact Hw | now rewrite <- Hf].
Qed.

Lemma plus_word cc i s caps i' s' caps' :
  matches (Plus cc) i s caps i' s' caps' ->
  exists w, s = w ++ s' /\ forallb (accepts cc) w = true /\ w <> [].
Proof.
  inversion 1; subst.
  destruct (firstn_skipn_word n s) as (w & Hw & Hl & Hf); [lia|].
  exists w. split; [exact Hw|]. split; [now rewrite <- Hf|].
  intros ->. simpl in Hl. lia.
Qed.

Lemma atom_word c i s caps i' s' caps' :
  matches (Atom (Chr c)) i s caps i' s' caps' -> s = c :: s'.
Proof.
  inversion 1; subst. simpl in *.
  match goal with H : (_ =? _)%N = true |- _ => apply N.eqb_eq in H; now subst end.
Qed.

Lemma str_word w : forall i s caps i' s' caps',
  matches (Str w) i s caps i' s' caps' -> s = w ++ s'.
Proof.
  induction w as [|c w IH]; simpl; intros i s caps i' s' caps' H.
  - inversion H; subst. reflexivity.
  - inversion H; subst.
    match goal with
    | Ha : matches (Atom _) _ _ _ _ _ _, Hs : matches (Str _) _ _ _ _ _ _ |- _ =>
        apply atom_word in Ha; apply IH in Hs; subst; reflexivity
    end.
Qed.

Lemma group_inner n r i s caps i' s' caps' :
  matches (Group n r) i s caps i' s' caps' ->
  exists caps0, matches r i s caps i' s' caps0.
Proof. inversion 1; subst. eauto. Qed.

Lemma seq_split r1 r2 i s caps i' s' caps' :
  matches (Seq r1 r2) i s caps i' s' caps' ->
  exists i1 s1 caps1,
    matches r1 i s caps i1 s1 caps1 /\ matches r2 i1 s1 caps1 i' s' caps'.
Proof. inversion 1; subst. eauto 8. Qed.

(** Where the search found its match. *)
Lemma search_suffix r s : forall i m,
  search r i s = Some m ->
  exists pre t e, s = pre ++ t /\ match_at r (i + List.length pre) t = Some (e, groups m).
Proof.
  induction s as [|c s IH]; simpl; intros i m H.
  - destruct (match_at r i []) as [[e caps]|] eqn:E; [|discriminate].
    injection H as <-. exists [], [], e. simpl. rewrite Nat.add_0_r. auto.
  - destruct (match_at r i (c :: s)) as [[e caps]|] eqn:E.
    + injection H as <-. exists [], (c :: s), e. simpl. rewrite Nat.add_0_r. auto.
    + apply IH in H as (pre & t & e & -> & H).
      exists (c :: pre), t, e. simpl. split; [reflexivity|].
      now replace (i + S (List.length pre)) with (S i + List.length pre) by lia.
Qed.

(** The path behind a match of the trending pattern, read as pieces. *)
Lemma trending_path i s e s' caps :
  matches trending_re i s [] e s' caps ->
  exists pre p, s = pre ++ assemble p ++ s' /\ shaped p = true.
Proof.
  cbv [trending_re seq_of fold_right]. intros H.
  repeat match goal with
    | H : matches (Seq _ _) _ _ _ _ _ _ |- _ =>
        apply seq_split in H as (? & ? & ? & ? & ?)
    | H : matches (Group _ _) _ _ _ _ _ _ |- _ =>
        apply group_inner in H as (? & ?)
    end.
  repeat match goal with
    | H : matches Eps _ _ _ _ _ _ |- _ => inversion H; subst; clear H
    | H : matches (Opt _) _ _ _ _ _ _ |- _ => apply matches_consumes in H as (pre & ? & _)
    | H : matches (Atom (Chr _)) _ _ _ _ _ _ |- _ => apply atom_word in H
    | H : matches (Str _) _ _ _ _ _ _ |- _ => apply str_word in H
    | H : matches (Plus _) _ _ _ _ _ _ |- _ => apply plus_word in H as (? & ? & ? & ?)
    end.
  repeat match goal with
    | H : matches (Star _) _ _ _ _ _ _ |- _ => apply star_word in H as (? & ? & ?)
    | H : matches (LazyStar _) _ _ _ _ _ _ |- _ => apply lazy_word in H as (? & ? & ?)
    end.
  subst.
  eexists pre, {| title := _; gap1 := _; gap2 := _; gap3 := _; level := _;
                  gap4 := _; gap5 := _; gap6 := _; number := _ |}.
  split.
  - unfold assemble. cbn [title gap1 gap2 gap3 level gap4 gap5 gap6 number].
    rewrite <- !app_assoc. reflexivity.
  - unfold shaped, one_line, white, digits.
    cbn [title gap1 gap2 gap3 level gap4 gap5 gap6 number].
    change (accepts Space) with is_white in *.
    change (accepts Digit) with is_digit in *.
    repeat match goal with H : forallb _ _ = true |- _ => rewrite H; clear H end.
    match goal with H : ?w <> [] |- _ => destruct w; [congruence | reflexivity] end.
Qed.

End ShapeFacts.

(** ** The matcher finds a path whenever there is one *)

Module CompletenessFacts.
Import JS Regex Matching MatcherFacts Service Shapes TrendingFacts ShapeFacts.
Local Open Scope nat_scope.

Section Completeness.
Context {R : Type}.
Implicit Types (k : @cont R) (res : R).

Lemma orelse_left (a b : option R) res :
  a = Some res -> exists res', orelse a b = Some res'.
Proof. intros ->. simpl. eauto. Qed.

Lemma orelse_right (a b : option R) res :
  b = Some res -> exists res', orelse a b = Some res'.
Proof. intros ->. destruct a; simpl; eauto. Qed.

Lemma star_complete cc s : forall n i caps k res,
  n <= List.length s ->
  forallb (accepts cc) (firstn n s) = true ->
  k (i + n) (skipn n s) caps = Some res ->
  exists res', star cc i s caps k = Some res'.
Proof.
  induction s as [|c s IH]; intros n i caps k res Hn Hall Hk.
  - simpl in Hn. assert (n = 0) by lia. subst n.
    simpl in *. rewrite Nat.add_0_r in Hk. eauto.
  - destruct n as [|n].
    + simpl in Hk. rewrite Nat.add_0_r in Hk. simpl.
      destruct (accepts cc c); [|eauto]. eapply orelse_right. exact Hk.
    + simpl in Hall, Hn. apply andb_true_iff in Hall as [Hc Hall].
      simpl. rewrite Hc.
      replace (i + S n) with (S i + n) in Hk by lia. simpl skipn in Hk.
      destruct (IH n (S i) caps k res) as [res' Hs]; [lia | assumption | assumption |].
      eapply orelse_left. exact Hs.
Qed.

Lemma lazy_star_complete cc s : forall n i caps k res,
  n <= List.length s ->
  forallb (accepts cc) (firstn n s) = true ->
  k (i + n) (skipn n s) caps = Some res ->
  exists res', lazy_star cc i s caps k = Some res'.
Proof.
  induction s as [|c s IH]; intros n i caps k res Hn Hall Hk.
  - simpl in Hn. assert (n = 0) by lia. subst n.
    simpl in *. rewrite Nat.add_0_r in Hk. rewrite Hk. simpl. eauto.
  - destruct n as [|n].
    + simpl in Hk. rewrite Nat.add_0_r in Hk. simpl.
      eapply orelse_left. exact Hk.
    + simpl in Hall, Hn. apply andb_true_iff in Hall as [Hc Hall].
      simpl. rewrite Hc.
      replace (i + S n) with (S i + n) in Hk by lia. simpl skipn in Hk.
      destruct (IH n (S i) caps k res) as [res' Hs]; [lia | assumption | assumption |].
      eapply orelse_right. exact Hs.
Qed.

(** Whenever the pattern has a path after which the continuation succeeds,
    the matcher succeeds (possibly along a path it prefers). *)
Theorem run_complete r i s caps i' s' caps' :
  matches r i s caps i' s' caps' ->
  plain_options r = true ->
  forall k res, k i' s' caps' = Some res ->
  exists res', run r i s caps k = Some res'.
Proof.
  induction 1; intros Hplain k res Hk; simpl in Hplain |- *.
  - rewrite H. eauto.
  - eapply star_complete; eassumption.
  - eapply lazy_star_complete; eassumption.
  - destruct s as [|c s]; [simpl in H; lia|].
    destruct n as [|n]; [lia|].
    simpl in H0. apply andb_true_iff in H0 as [Hc Hall]. rewrite Hc.
    replace (i + S n) with (S i + n) in Hk by lia. simpl skipn in Hk.
    eapply star_complete; [|eassumption|eassumption]. simpl in H. lia.
  - apply andb_true_iff in Hplain as [Hng Hplain].
    destruct (Nat.eqb i' i) eqn:E.
    + apply Nat.eqb_eq in E. subst i'.
      pose proof (no_groups_captures _ _ _ _ _ _ _ H Hng) as ->.
      destruct (matches_consumes _ _ _ _ _ _ _ H) as (w & -> & Hw).
      assert (w = []) by (destruct w; [reflexivity | simpl in Hw; lia]). subst w.
      eapply orelse_right. exact Hk.
    + destruct (IHmatches Hplain
                  (fun j t c => if Nat.eqb j i then None else k j t c) res) as [res' Hr].
      { rewrite E. exact Hk. }
      eapply orelse_left. exact Hr.
  - eapply orelse_right. exact Hk.
  - eapply IHmatches; [assumption|]. exact Hk.
  - apply andb_true_iff in Hplain as [H1 H2].
    destruct (IHmatches2 H2 k res Hk) as [res2 Hr2].
    eapply IHmatches1; [assumption|]. exact Hr2.
  - apply andb_true_iff in Hplain as [H1 H2].
    destruct (IHmatches H1 k res Hk) as [res1 Hr1].
    eapply orelse_left. exact Hr1.
  - apply andb_true_iff in Hplain as [H1 H2].
    destruct (IHmatches H2 k res Hk) as [res2 Hr2].
    eapply orelse_right. exact Hr2.
  - eauto.
  - eauto.
  - eauto.
Qed.
End Completeness.

Lemma match_at_complete r i s e s' caps :
  matches r i s [] e s' caps -> plain_options r = true ->
  exists e' caps', match_at r i s = Some (e', caps').
Proof.
  intros Hm Hp. unfold match_at.
  destruct (run_complete r i s [] e s' caps Hm Hp
              (fun e0 _ caps0 => Some (e0, caps0)) (e, caps) eq_refl) as [[e' caps'] Hr].
  eauto.
Qed.

Lemma search_complete r pre : forall i t e caps,
  match_at r (i + List.length pre) t = Some (e, caps) ->
  exists m, search r i (pre ++ t) = Some m.
Proof.
  induction pre as [|c pre IH]; intros i t e caps H; simpl in H |- *.
  - rewrite Nat.add_0_r in H.
    destruct t; simpl; rewrite H; eauto.
  - destruct (match_at r i (c :: pre ++ t)) as [[e0 caps0]|]; [eauto|].
    eapply IH. replace (S i + List.length pre) with (i + S (List.length pre)) by lia.
    exact H.
Qed.

(** *** Paths, written by what they consume *)

Lemma star_app cc w i s caps :
  forallb (accepts cc) w = true ->
  matches (Star cc) i (w ++ s) caps (i + List.length w) s caps.
Proof.
  intros Hw.
  pose proof (M_star cc i (w ++ s) caps (List.length w)) as H.
  rewrite firstn_app, firstn_all, Nat.sub_diag, app_nil_r in H.
  rewrite skipn_app, skipn_all, Nat.sub_diag in H. simpl in H.
  apply H; [rewrite length_app; lia | exact Hw].
Qed.

Lemma lazy_app cc w i s caps :
  forallb (accepts cc) w = true ->
  matches (LazyStar cc) i (w ++ s) caps (i + List.length w) s caps.
Proof.
  intros Hw.
  pose proof (M_lazy cc i (w ++ s) caps (List.length w)) as H.
  rewrite firstn_app, firstn_all, Nat.sub_diag, app_nil_r in H.
  rewrite skipn_app, skipn_all, Nat.sub_diag in H. simpl in H.
  apply H; [rewrite length_app; lia | exact Hw].
Qed.

Lemma plus_app cc w i s caps :
  forallb (accepts cc) w = true -> w <> [] ->
  matches (Plus cc) i (w ++ s) caps (i + List.length w) s caps.
Proof.
  intros Hw Hne.
  pose proof (M_plus cc i (w ++ s) caps (List.length w)) as H.
  rewrite firstn_app, firstn_all, Nat.sub_diag, app_nil_r in H.
  rewrite skipn_app, skipn_all, Nat.sub_diag in H. simpl in H.
  apply H; [|exact Hw].
  rewrite length_app. destruct w; [congruence | simpl; lia].
Qed.

Lemma str_app w : forall i s caps,
  matches (Str w) i (w ++ s) caps (i + List.length w) s caps.
Proof.
  induction w as [|c w IH]; intros i s caps; simpl.
  - rewrite Nat.add_0_r. constructor.
  - econstructor.
    + constructor. simpl. apply N.eqb_refl.
    + replace (i + S (List.length w)) with (S i + List.length w) by lia. apply IH.
Qed.

Lemma atom_app c i s caps :
  matches (Atom (Chr c)) i (c :: s) caps (S i) s caps.
Proof. constructor. simpl. apply N.eqb_refl. Qed.

(** Shaped pieces are a path of the pattern, from wherever they start. *)
Lemma shaped_path p i post :
  shaped p = true ->
  exists e caps, matches trending_re i (assemble p ++ post) [] e post caps.
Proof.
  unfold shaped, one_line, white, digits. intros H.
  repeat (apply andb_true_iff in H as [H ?]).
  assert (Hne : number p <> []) by (destruct (number p); [discriminate | congruence]).
  unfold assemble. rewrite <- !app_assoc.
  cbv [trending_re seq_of fold_right].
  do 2 eexists.
  eapply M_seq; [apply M_opt_none|].
  eapply M_seq; [apply M_group, lazy_app; eassumption|].
  eapply M_seq; [apply star_app; eassumption|].
  eapply M_seq; [apply atom_app|].
  eapply M_seq; [apply star_app; eassumption|].
  eapply M_seq; [apply str_app|].
  eapply M_seq; [apply star_app; eassumption|].
  eapply M_seq; [apply M_group, lazy_app; eassumption|].
  eapply M_seq; [apply star_app; eassumption|].
  eapply M_seq; [apply atom_app|].
  eapply M_seq; [apply star_app; eassumption|].
  eapply M_seq; [apply str_app|].
  eapply M_seq; [apply star_app; eassumption|].
  eapply M_seq; [apply M_group, plus_app; eassumption|].
  apply M_eps.
Qed.

End CompletenessFacts.

(** ** The path the matcher takes on a line that reads in one way *)

Module EvalFacts.
Import JS Regex Matching MatcherFacts Service Shapes TrendingFacts JSFacts.
Local Open Scope nat_scope.

Lemma eqb_eq (a : jsstring) : forall b, JS.eqb a b = true -> a = b.
Proof.
  induction a as [|x a IH]; intros [|y b]; simpl; try discriminate; [reflexivity|].
  intros H. apply andb_true_iff in H as [Hx Hab].
  apply N.eqb_eq in Hx. subst y. f_equal. auto.
Qed.

Section Steps.
Context {R : Type}.
Implicit Types (k : @cont R) (res : R).

Lemma orelse_none (a : option R) : orelse a None = a.
Proof. destruct a; reflexivity. Qed.

(** A literal word at the head of the input is taken as it is. *)
Lemma str_step w r : forall i s caps k,
  run (Seq (Str w) r) i (w ++ s) caps k = run r (i + List.length w) s caps k.
Proof.
  induction w as [|c w IH]; intros i s caps k.
  - simpl. now rewrite Nat.add_0_r.
  - change (run (Seq (Str (c :: w)) r) i ((c :: w) ++ s) caps k)
      with (if (c =? c)%N then run (Seq (Str w) r) (S i) (w ++ s) caps k else None).
    rewrite N.eqb_refl, IH. f_equal. simpl. lia.
Qed.

(** White space followed by a character that is not white space: the
    greedy star has to take all of it, so nothing is left to choice. *)
Lemma space_char_step c0 r ws : forall i s caps k,
  is_white c0 = false -> forallb is_white ws = true ->
  run (Seq (Star Space) (Seq (Atom (Chr c0)) r)) i (ws ++ c0 :: s) caps k
  = run r (i + List.length ws + 1) s caps k.
Proof.
  induction ws as [|c ws IH]; intros i s caps k Hc0 Hws.
  - cbn [run star app accepts]. rewrite Hc0. cbn [run accepts].
    rewrite N.eqb_refl. f_equal. simpl. lia.
  - simpl in Hws. apply andb_true_iff in Hws as [Hc Hws].
    cbn [run star app accepts]. rewrite Hc.
    cbn [run accepts].
    assert (Hne : (c =? c0)%N = false).
    { destruct (N.eqb_spec c c0); [subst; congruence | reflexivity]. }
    rewrite Hne, orelse_none.
    specialize (IH (S i) s caps k Hc0 Hws). cbn [run accepts] in IH. rewrite IH.
    f_equal. simpl. lia.
Qed.

Lemma space_word_step word c0 w r ws i s caps k :
  word = c0 :: w ->
  is_white c0 = false -> forallb is_white ws = true ->
  run (Seq (Star Space) (Seq (Str word) r)) i (ws ++ word ++ s) caps k
  = run r (i + List.length ws + List.length word) s caps k.
Proof.
  intros -> Hc0 Hws.
  change (run (Seq (Star Space) (Seq (Str (c0 :: w)) r)) i (ws ++ (c0 :: w) ++ s) caps k)
    with (run (Seq (Star Space) (Seq (Atom (Chr c0)) (Seq (Str w) r))) i
              (ws ++ c0 :: (w ++ s)) caps k).
  rewrite space_char_step by assumption. rewrite str_step. f_equal. simpl. lia.
Qed.

(** White space followed by anything but the wanted character: no match. *)
Lemma space_char_fail c0 r s : forall i caps k,
  is_white c0 = false ->
  (forall t, trimStart s <> c0 :: t) ->
  run (Seq (Star Space) (Seq (Atom (Chr c0)) r)) i s caps k = None.
Proof.
  induction s as [|c s IH]; intros i caps k Hc0 Hs.
  - reflexivity.
  - cbn [run star accepts]. destruct (is_white c) eqn:Hc.
    + cbn [run accepts].
      assert (Hne : (c =? c0)%N = false).
      { destruct (N.eqb_spec c c0); [subst; congruence | reflexivity]. }
      rewrite Hne, orelse_none.
      specialize (IH (S i) caps k Hc0). cbn [run accepts] in IH. apply IH.
      intros t Ht. apply (Hs t). simpl. now rewrite Hc.
    + cbn [run accepts].
      destruct (N.eqb_spec c c0) as [->|Hne]; [|reflexivity].
      exfalso. apply (Hs s). simpl. now rewrite Hc.
Qed.

(** A greedy star takes the whole run when the rest then matches. *)
Lemma star_step cc r w : forall i s caps k res,
  forallb (accepts cc) w = true -> stops cc s ->
  run r (i + List.length w) s caps k = Some res ->
  run (Seq (Star cc) r) i (w ++ s) caps k = Some res.
Proof.
  induction w as [|c w IH]; intros i s caps k res Hw Hs Hr.
  - simpl in Hr. rewrite Nat.add_0_r in Hr. cbn [run app].
    destruct s as [|c s]; cbn [star]; [exact Hr|].
    rewrite (Hs c s eq_refl). exact Hr.
  - simpl in Hw. apply andb_true_iff in Hw as [Hc Hw].
    cbn [run app star]. rewrite Hc.
    specialize (IH (S i) s caps k res Hw Hs). cbn [run] in IH.
    rewrite IH; [reflexivity|].
    now replace (S i + List.length w) with (i + List.length (c :: w)) by (simpl; lia).
Qed.

Lemma plus_step cc r d ds i s caps k res :
  forallb (accepts cc) (d :: ds) = true -> stops cc s ->
  run r (i + List.length (d :: ds)) s caps k = Some res ->
  run (Seq (Plus cc) r) i ((d :: ds) ++ s) caps k = Some res.
Proof.
  intros Hw Hs Hr. simpl in Hw. apply andb_true_iff in Hw as [Hd Hw].
  cbn [run app]. rewrite Hd.
  pose proof (star_step cc r ds (S i) s caps k res Hw Hs) as H. cbn [run] in H.
  apply H. now replace (S i + List.length ds) with (i + List.length (d :: ds)) by (simpl; lia).
Qed.

(** A captured greedy run. *)
Lemma group_plus_step cc n r d ds i s caps k res :
  forallb (accepts cc) (d :: ds) = true -> stops cc s ->
  run r (i + List.length (d :: ds)) s ((n, d :: ds) :: caps) k = Some res ->
  run (Seq (Group n (Plus cc)) r) i ((d :: ds) ++ s) caps k = Some res.
Proof.
  intros Hw Hs Hr.
  pose proof (plus_step cc Eps d ds i s caps
                (fun i' s' caps' =>
                   run r i' s' ((n, firstn (i' - i) ((d :: ds) ++ s)) :: caps') k)
                res Hw Hs) as H.
  cbn [run] in H |- *. apply H.
  replace (i + List.length (d :: ds) - i) with (List.length (d :: ds)) by lia.
  rewrite firstn_app, firstn_all, Nat.sub_diag. cbn [firstn]. rewrite app_nil_r.
  exact Hr.
Qed.

(** A lazy star stops at the first place from which the continuation
    succeeds. *)
Lemma lazy_first cc w (K : @cont R) : forall i s caps res,
  forallb (accepts cc) w = true ->
  (forall j, j < List.length w -> K (i + j) (skipn j w ++ s) caps = None) ->
  K (i + List.length w) s caps = Some res ->
  lazy_star cc i (w ++ s) caps K = Some res.
Proof.
  induction w as [|c w IH]; intros i s caps res Hw Hfail Hr.
  - simpl in Hr. rewrite Nat.add_0_r in Hr.
    cbn [app]. destruct s; cbn [lazy_star]; rewrite Hr; reflexivity.
  - simpl in Hw. apply andb_true_iff in Hw as [Hc Hw].
    cbn [app lazy_star].
    pose proof (Hfail 0) as H0. rewrite Nat.add_0_r in H0. cbn [skipn app] in H0.
    rewrite H0 by (simpl; lia). cbn [orelse]. rewrite Hc.
    apply IH; [exact Hw | |].
    + intros j Hj. specialize (Hfail (S j)).
      replace (i + S j) with (S i + j) in Hfail by lia. apply Hfail. simpl. lia.
    + now replace (S i + List.length w) with (i + List.length (c :: w)) by (simpl; lia).
Qed.

(** A captured lazy run. *)
Lemma group_lazy_step cc n r w i s caps k res :
  forallb (accepts cc) w = true ->
  (forall j caps', j < List.length w ->
     run r (i + j) (skipn j w ++ s) caps' k = None) ->
  run r (i + List.length w) s ((n, w) :: caps) k = Some res ->
  run (Seq (Group n (LazyStar cc)) r) i (w ++ s) caps k = Some res.
Proof.
  intros Hw Hfail Hr. cbn [run].
  apply lazy_first; [exact Hw | |].
  - intros j Hj. apply Hfail. exact Hj.
  - replace (i + List.length w - i) with (List.length w) by lia.
    rewrite firstn_app, firstn_all, Nat.sub_diag. cbn [firstn]. rewrite app_nil_r.
    exact Hr.
Qed.
End Steps.

(** *** Strings without white space at an end *)

Lemma no_trailing_white t :
  trimEnd t = t -> t <> [] -> exists t' c, t = t' ++ [c] /\ is_white c = false.
Proof.
  unfold trimEnd. intros Ht Hne.
  assert (Hr : trimStart (rev t) = rev t).
  { apply (f_equal (@rev N)) in Ht. now rewrite rev_involutive in Ht. }
  destruct (rev t) as [|c r0] eqn:E.
  - apply (f_equal (@rev N)) in E. rewrite rev_involutive in E. simpl in E. congruence.
  - exists (rev r0), c. split.
    + apply (f_equal (@rev N)) in E. rewrite rev_involutive in E. exact E.
    + destruct (trimStart_head (c :: r0)) as [H0 | (c' & r' & H1 & Hc')].
      * rewrite Hr in H0. discriminate.
      * rewrite Hr in H1. injection H1 as -> _. exact Hc'.
Qed.

Lemma no_leading_white t :
  trimStart t = t -> t <> [] -> exists c r, t = c :: r /\ is_white c = false.
Proof.
  intros Ht Hne. destruct (trimStart_head t) as [H0 | (c & r & H1 & Hc)].
  - rewrite Ht in H0. contradiction.
  - rewrite Ht in H1. eauto.
Qed.

Lemma trim_fixed_both t : trim t = t -> trimStart t = t /\ trimEnd t = t.
Proof.
  intros Ht. split.
  - rewrite <- Ht at 1. unfold trim at 1.
    rewrite (trimStart_trimEnd_fixed (trimStart t) (trimStart_idem t)). exact Ht.
  - rewrite <- Ht at 1. unfold trim at 1. rewrite trimEnd_idem. exact Ht.
Qed.

(** Past leading white space comes a character of the string itself. *)
Lemma trimStart_reaches u :
  forallb is_white u = false ->
  exists c r, In c u /\ forall x, trimStart (u ++ x) = c :: r ++ x.
Proof.
  induction u as [|c u IH]; simpl; [discriminate|].
  destruct (is_white c) eqn:Hc; simpl.
  - intros H. destruct (IH H) as (c' & r & Hin & Hx). exists c', r. auto.
  - intros _. exists c, u. auto.
Qed.

Lemma skipn_not_white t' c j :
  is_white c = false -> j < List.length (t' ++ [c]) ->
  forallb is_white (skipn j (t' ++ [c])) = false.
Proof.
  intros Hc Hj. rewrite length_app in Hj. simpl in Hj.
  rewrite skipn_app.
  replace (j - List.length t') with 0 by lia. cbn [skipn].
  rewrite forallb_app. simpl. rewrite Hc. apply andb_false_r.
Qed.

(** Inside a string that has no dash and does not end in white space, the
    first character after any white space is not a dash. *)
Lemma no_dash_ahead t j x :
  trimEnd t = t -> no_dash t = true -> j < List.length t ->
  forall r, trimStart (skipn j t ++ x) <> 45%N :: r.
Proof.
  intros Hend Hdash Hj r.
  assert (Hne : t <> []) by (intros ->; simpl in Hj; lia).
  destruct (no_trailing_white t Hend Hne) as (t' & c & -> & Hc).
  destruct (trimStart_reaches _ (skipn_not_white t' c j Hc Hj)) as (c' & r' & Hin & Hx).
  rewrite Hx. intros E. injection E as -> _.
  assert (Hin' : In 45%N (t' ++ [c])).
  { rewrite <- (firstn_skipn j (t' ++ [c])). apply in_or_app. now right. }
  unfold no_dash in Hdash. rewrite forallb_forall in Hdash.
  specialize (Hdash _ Hin'). discriminate.
Qed.

Lemma stops_space_nonwhite c r x :
  is_white c = false -> stops Space ((c :: r) ++ x).
Proof. intros Hc c' r' E. injection E as <- _. exact Hc. Qed.

Lemma stops_digit_rest rest :
  starts_with_digit rest = false -> stops Digit rest.
Proof. intros H c r ->. exact H. Qed.

(** *** The pattern on a line that can be read in one way only *)

Lemma trending_re_parts : trending_re = Seq (Opt ordinal_re) fields_re.
Proof. reflexivity. Qed.

Lemma unambiguous_facts p : unambiguous p = true -> Unambiguous p.
Proof.
  unfold unambiguous, shaped, one_line, white, digits. intros H.
  repeat (apply andb_true_iff in H as [H ?]).
  repeat match goal with
    | H : JS.eqb _ _ = true |- _ => apply eqb_eq in H
    end.
  assert (Hlevel : level p <> []) by (destruct (level p); [discriminate | congruence]).
  split; try assumption.
  - destruct (number p) as [|d ds]; [discriminate|]. eauto.
  - match goal with Ht : trim (level p) = level p |- _ =>
      destruct (trim_fixed_both _ Ht) as [Hs _] end.
    now apply no_leading_white.
Qed.

(** From the first group on, the matcher reads the pieces as they are. *)
Lemma fields_eval p rest i caps :
  unambiguous p = true -> starts_with_digit rest = false ->
  exists e,
    run fields_re i (assemble p ++ rest) caps (fun e _ c => Some (e, c))
    = Some (e, (3, number p) :: (2, level p) :: (1, title p) :: caps).
Proof.
  intros Hu Hrest. destruct (unambiguous_facts p Hu).
  destruct u_number0 as (d & ds & Hnum & Hds).
  destruct u_level_head0 as (lc & lr & Hlev & Hlc).
  destruct (trim_fixed_both _ u_level_trim0) as [_ Hlevel_end].
  unfold assemble, fields_re. rewrite <- !app_assoc.
  change (lit "-") with [45%N]. cbn [app].
  eexists.
  apply group_lazy_step; [assumption | |].
  { intros j caps' Hj. apply space_char_fail; [reflexivity|].
    now apply no_dash_ahead. }
  rewrite space_char_step by (reflexivity || assumption).
  erewrite space_word_step; [|reflexivity|reflexivity|assumption].
  apply star_step; [assumption | rewrite Hlev; now apply stops_space_nonwhite |].
  apply group_lazy_step; [assumption | |].
  { intros j caps' Hj. apply space_char_fail; [reflexivity|].
    now apply no_dash_ahead. }
  rewrite space_char_step by (reflexivity || assumption).
  erewrite space_word_step; [|reflexivity|reflexivity|assumption].
  rewrite Hnum.
  assert (Hd : is_digit d = true) by (simpl in Hds; now apply andb_true_iff in Hds as [? _]).
  apply star_step;
    [assumption | apply stops_space_nonwhite; now destruct (digit_plain d Hd) |].
  apply group_plus_step; [exact Hds | now apply stops_digit_rest |].
  cbn [run]. reflexivity.
Qed.

Section OptionSteps.
Context {R : Type}.
Implicit Types (k : @cont R) (res : R).

Lemma opt_skip_step o r i s caps k :
  (forall K : @cont R, run o i s caps K = None) ->
  run (Seq (Opt o) r) i s caps k = run r i s caps k.
Proof. intros H. cbn [run]. rewrite H. reflexivity. Qed.

Lemma opt_take_step o r i s caps k res :
  run o i s caps
      (fun i' s' caps' => if Nat.eqb i' i then None else run r i' s' caps' k) = Some res ->
  run (Seq (Opt o) r) i s caps k = Some res.
Proof. intros H. cbn [run]. rewrite H. reflexivity. Qed.

Lemma ordinal_absent i s caps (K : @cont R) :
  starts_with_digit s = false -> run ordinal_re i s caps K = None.
Proof.
  intros H. unfold ordinal_re. cbn [run]. destruct s as [|c s]; [reflexivity|].
  simpl in H. cbn [accepts]. rewrite H. reflexivity.
Qed.
End OptionSteps.

Lemma search_here r i s e caps :
  match_at r i s = Some (e, caps) ->
  search r i s = Some {| index := i; matched := firstn (e - i) s; groups := caps |}.
Proof. intros H. destruct s; simpl; rewrite H; reflexivity. Qed.

(** A line that starts with its title. *)
Lemma trending_eval_plain p rest :
  unambiguous p = true ->
  starts_with_digit (title p) = false ->
  starts_with_digit rest = false ->
  exists m,
    exec trending_re (assemble p ++ rest) = Some m
    /\ groups m = [(3, number p); (2, level p); (1, title p)].
Proof.
  intros Hu Htitle Hrest.
  destruct (fields_eval p rest 0 [] Hu Hrest) as [e He].
  assert (Hhead : starts_with_digit (assemble p ++ rest) = false).
  { destruct (unambiguous_facts p Hu). unfold assemble.
    destruct (title p) as [|c t]; [|exact Htitle].
    destruct (gap1 p) as [|c g]; [reflexivity|].
    simpl in u_gap7. apply andb_true_iff in u_gap7 as [Hc _].
    simpl. destruct (is_digit c) eqn:Hd; [|reflexivity].
    destruct (digit_plain c Hd) as [Hw _]. congruence. }
  eexists. split.
  - unfold exec. apply search_here. unfold match_at.
    rewrite trending_re_parts, opt_skip_step; [exact He|].
    intros K. now apply ordinal_absent.
  - reflexivity.
Qed.

(** A line that starts with an ordinal: it is skipped, with the white
    space after it. *)
Lemma trending_eval_ordinal ds ws p rest :
  digits ds = true -> ds <> [] -> white ws = true ->
  unambiguous p = true ->
  trimStart (title p) = title p -> title p <> [] ->
  starts_with_digit rest = false ->
  exists m,
    exec trending_re (ordinal ds ws ++ assemble p ++ rest) = Some m
    /\ groups m = [(3, number p); (2, level p); (1, title p)].
Proof.
  intros Hds Hne Hws Hu Htitle Htne Hrest.
  destruct ds as [|d ds]; [congruence|].
  destruct (no_leading_white _ Htitle Htne) as (tc & tr & Ht & Htc).
  destruct (fields_eval p rest (0 + List.length (d :: ds) + 1 + List.length ws) [] Hu Hrest)
    as [e He].
  eexists. split.
  - unfold exec. apply search_here. unfold match_at.
    rewrite trending_re_parts. apply opt_take_step.
    unfold ordinal, ordinal_re. rewrite <- !app_assoc.
    change (lit ".") with [46%N]. cbn [app].
    change ((d :: ds) ++ 46%N :: ws ++ assemble p ++ rest)
      with ((d :: ds) ++ (46%N :: ws ++ assemble p ++ rest)).
    apply plus_step; [exact Hds | intros c r E; now injection E as <- _ |].
    cbn [run accepts]. rewrite N.eqb_refl.
    pose proof (star_step (R := nat * captures) Space Eps ws) as Hstar.
    cbn [run] in Hstar. apply Hstar; [exact Hws | |].
    + unfold assemble. rewrite Ht. now apply stops_space_nonwhite.
    + match goal with |- (if Nat.eqb ?a 0 then _ else _) = _ =>
        destruct (Nat.eqb_spec a 0) as [E|_]; [simpl in E; lia|] end.
      replace (S (0 + List.length (d :: ds)) + List.length ws)
        with (0 + List.length (d :: ds) + 1 + List.length ws) by lia.
      exact He.
  - reflexivity.
Qed.

(** *** Quote stripping *)

(** Where the quote pattern matches: a quote at index 0, or a quote that is
    the last character. *)
Lemma quote_at i c s :
  match_at quote_re i (c :: s)
  = if (c =? quote)%N
    then if Nat.eqb i 0 then Some (S i, [])
         else match s with [] => Some (S i, []) | _ :: _ => None end
    else None.
Proof.
  unfold match_at, quote_re. cbn [run accepts].
  destruct (Nat.eqb i 0), (c =? quote)%N, s; reflexivity.
Qed.

Lemma remove_last_quote s : forall i,
  remove_from quote_re (S i) s 0 = drop_last_quote s.
Proof.
  induction s as [|c s IH]; intros i; [reflexivity|].
  cbn [remove_from]. rewrite quote_at. cbn [Nat.eqb].
  destruct (c =? quote)%N eqn:Hc.
  - destruct s as [|d s].
    + destruct (Nat.eqb_spec (S (S i)) (S i)) as [E|_]; [lia|].
      cbn [remove_from drop_last_quote]. now rewrite Hc.
    + rewrite (IH (S i)). reflexivity.
  - rewrite (IH (S i)). cbn [drop_last_quote].
    destruct s; [rewrite Hc|]; reflexivity.
Qed.

Lemma remove_all_quotes s : remove_all quote_re s = strip_quotes s.
Proof.
  unfold remove_all, strip_quotes. destruct s as [|c s]; [reflexivity|].
  cbn [remove_from drop_first_quote]. rewrite quote_at. cbn [Nat.eqb].
  destruct (c =? quote)%N eqn:Hc.
  - cbn [Nat.eqb Nat.sub]. apply remove_last_quote.
  - rewrite remove_last_quote. cbn [drop_last_quote].
    destruct s; [rewrite Hc|]; reflexivity.
Qed.

(** The record read off a match with the three groups set. *)
Lemma parse_line_of_groups line m g1 g2 d ds :
  exec trending_re line = Some m ->
  groups m = [(3, d :: ds); (2, g2); (1, g1)] ->
  is_digit d = true ->
  parse_line line
  = Ok (Some {| topic := strip_quotes (trim g1);
                risk := trim g2;
                score := to_number false (digits_acc 0 (d :: ds)) |}).
Proof.
  intros Hm Hg Hd. unfold parse_line, capture, group. rewrite Hm, Hg. simpl lookup.
  cbn [bind]. now rewrite remove_all_quotes, parseInt10_digits.
Qed.

(** The record of a match whose groups are the pieces. *)
Lemma record_of_match p line m :
  unambiguous p = true ->
  exec trending_re line = Some m ->
  groups m = [(3, number p); (2, level p); (1, title p)] ->
  parse_line line = Ok (Some (record_of_pieces p)).
Proof.
  intros Hu Hm Hg.
  destruct (unambiguous_facts p Hu) as [_ _ _ _ _ _ _ _ (d & ds & Hnum & Hds) _ _ _ Hlevel _].
  rewrite Hnum in Hg. simpl in Hds. apply andb_true_iff in Hds as [Hd _].
  rewrite (parse_line_of_groups _ m _ _ d ds Hm Hg Hd).
  unfold record_of_pieces. now rewrite Hnum, Hlevel.
Qed.

End EvalFacts.

(** ** Lines and texts *)

Module LineFacts.
Import JS Regex Service Shapes TrendingFacts EvalFacts.
Local Open Scope nat_scope.

Lemma split_nl_nonempty s : split_nl s <> [].
Proof.
  induction s as [|c s IH]; simpl; [discriminate|].
  destruct (c =? 10)%N; [discriminate|].
  destruct (split_nl s); [contradiction | discriminate].
Qed.

(** Splitting at line feeds distributes over a line feed. *)
Lemma split_nl_app a b :
  split_nl (a ++ 10%N :: b) = split_nl a ++ split_nl b.
Proof.
  induction a as [|c a IH]; simpl; [reflexivity|].
  destruct (c =? 10)%N; [now rewrite IH|].
  rewrite IH. pose proof (split_nl_nonempty a) as Hne.
  destruct (split_nl a); [contradiction | reflexivity].
Qed.

Lemma split_nl_one_line l :
  forallb (fun c => negb (c =? 10)%N) l = true -> split_nl l = [l].
Proof.
  induction l as [|c l IH]; simpl; [reflexivity|].
  intros H. apply andb_true_iff in H as [Hc Hl].
  apply negb_true_iff in Hc. rewrite Hc, (IH Hl). reflexivity.
Qed.

Lemma split_join lines :
  lines <> [] ->
  Forall (fun l => forallb (fun c => negb (c =? 10)%N) l = true) lines ->
  split_nl (join_lines lines) = lines.
Proof.
  induction lines as [|l ls IH]; [congruence|].
  intros _ Hall. inversion Hall as [|? ? Hl Hls]; subst.
  destruct ls as [|l' ls]; [now apply split_nl_one_line|].
  change (join_lines (l :: l' :: ls)) with (l ++ 10%N :: join_lines (l' :: ls)).
  rewrite split_nl_app, (split_nl_one_line l Hl), IH; [reflexivity | discriminate | assumption].
Qed.

Lemma parse_lines_cons l ls o rs :
  parse_line l = Ok o -> parse_lines ls = Ok rs ->
  parse_lines (l :: ls)
  = Ok (match o with Some r => r :: rs | None => rs end).
Proof.
  unfold parse_lines. simpl. intros -> H. simpl.
  destruct (mapM parse_line ls) as [items|e]; simpl in H |- *; [|discriminate].
  injection H as <-. destruct o; reflexivity.
Qed.

Lemma parse_lines_total ls : exists rs, parse_lines ls = Ok rs.
Proof. destruct (parse_lines_spec ls) as (rs & H & _). eauto. Qed.

Lemma parse_line_total l : exists o, parse_line l = Ok o.
Proof.
  destruct (parse_line_cases l) as [[_ H] | [_ (g1 & g2 & d & g3 & _ & H)]]; eauto.
Qed.

Lemma parse_lines_app x : forall y rx ry,
  parse_lines x = Ok rx -> parse_lines y = Ok ry ->
  parse_lines (x ++ y) = Ok (rx ++ ry).
Proof.
  induction x as [|l x IH]; intros y rx ry Hx Hy.
  - injection Hx as <-. exact Hy.
  - destruct (parse_line_total l) as [o Ho].
    destruct (parse_lines_total x) as [rs Hrs].
    rewrite (parse_lines_cons l x o rs Ho Hrs) in Hx. injection Hx as <-.
    cbn [app]. rewrite (parse_lines_cons l (x ++ y) o (rs ++ ry) Ho (IH y rs ry Hrs Hy)).
    destruct o; reflexivity.
Qed.

Lemma drop_last_quote_app x : drop_last_quote (x ++ [quote]) = x.
Proof.
  induction x as [|c x IH]; [reflexivity|].
  cbn [app drop_last_quote]. rewrite IH.
  destruct x; reflexivity.
Qed.

End LineFacts.

Module ParserSpec.
Import JS Regex Matching MatcherFacts Service Shapes TrendingFacts.
Import ShapeFacts CompletenessFacts EvalFacts LineFacts Samples LineSamples.
Local Open Scope nat_scope.

(** X1.  A line matches the trending pattern exactly when it contains, in
    this order and with nothing but white space where gaps are shown:
    a title, gap, dash, gap, "Risk:", gap, a level, gap, dash, gap,
    "Credibility:", gap, at least one digit; title and level free of line
    terminators.  Anything may come before and after. *)
Theorem matching_lines_characterised (line : jsstring) :
  matches_pattern line = true
  <-> exists pre p post, line = pre ++ assemble p ++ post /\ shaped p = true.
Proof.
  split.
  - unfold matches_pattern, exec.
    destruct (search trending_re 0 line) as [m|] eqn:E; [|discriminate].
    intros _. apply search_suffix in E as (pre & t & e & -> & H).
    apply match_at_sound in H as [s' H].
    apply trending_path in H as (pre' & p & -> & Hp).
    exists (pre ++ pre'), p, s'. rewrite <- app_assoc. auto.
  - intros (pre & p & post & -> & Hp).
    destruct (shaped_path p (0 + List.length pre) post Hp) as (e & caps & Hm).
    destruct (match_at_complete _ _ _ _ _ _ Hm eq_refl) as (e' & caps' & Ha).
    destruct (search_complete _ pre 0 _ _ _ Ha) as [m Hs].
    unfold matches_pattern, exec. rewrite Hs. reflexivity.
Qed.

Lemma matching_lines_characterised_witness :
  matches_pattern (lit "Note: " ++ assemble moon_pieces ++ lit " (unverified)") = true.
Proof.
  apply (matching_lines_characterised
           (lit "Note: " ++ assemble moon_pieces ++ lit " (unverified)")).
  exists (lit "Note: "), moon_pieces, (lit " (unverified)").
  split; reflexivity.
Defined.





(** X4.  The replace call on the title removes one double quote at the
    very start and one at the very end, if they are there, and nothing
    else: a title in quotes comes out without them, quotes inside stay. *)
Theorem quotes_stripped_once (s : jsstring) :
  remove_all quote_re s = drop_last_quote (drop_first_quote s)
  /\ remove_all quote_re ([quote] ++ s ++ [quote]) = s.
Proof.
  split.
  - apply remove_all_quotes.
  - rewrite remove_all_quotes. unfold strip_quotes.
    cbn [app drop_first_quote]. rewrite N.eqb_refl. apply drop_last_quote_app.
Qed.

(** X5.  Lines are parsed one by one: the records of a text are those of
    what stands before a line feed followed by those of what stands after
    it, and no part ever makes the parser throw. *)
Theorem lines_parsed_independently (a b : jsstring) :
  exists ra rb,
    parse_topics a = Ok ra /\ parse_topics b = Ok rb
    /\ parse_topics (a ++ [10%N] ++ b) = Ok (ra ++ rb).
Proof.
  unfold parse_topics.
  destruct (parse_lines_total (split_nl a)) as [ra Ha].
  destruct (parse_lines_total (split_nl b)) as [rb Hb].
  exists ra, rb. split; [exact Ha|]. split; [exact Hb|].
  cbn [app]. rewrite split_nl_app. now apply parse_lines_app.
Qed.

End ParserSpec.

Module TopicsSpec.
Import JS Regex Service Shapes TrendingFacts ListFacts EvalFacts LineFacts.
Import Samples LineSamples.
Local Open Scope nat_scope.

(** What [getTrendingTopics] returns, case by case. *)
Lemma getTrendingTopics_cases gen :
  (exists e, gen trending_request = Throw e
             /\ outcome (getTrendingTopics gen) = Ok [error_topic])
  \/ (exists response all,
        gen trending_request = Ok response
        /\ parse_lines (split_nl (text response)) = Ok all
        /\ Forall2 is_record_of (filter matches_pattern (split_nl (text response))) all
        /\ outcome (getTrendingTopics gen)
           = Ok (match all with
                 | _ :: _ => firstn 5 all
                 | [] => if truthy (text response) then [placeholder_topic] else []
                 end)).
Proof.
  unfold getTrendingTopics, await_generateContent, io_try, io_bind, io_lift, io_ret, outcome.
  destruct (gen trending_request) as [response|e]; [right | left; eauto].
  destruct (parse_lines_spec (split_nl (text response))) as (all & Hp & Hrec).
  exists response, all. split; [reflexivity|]. split; [exact Hp|]. split; [exact Hrec|].
  unfold parse_topics. rewrite Hp. cbn -[firstn Nat.ltb].
  destruct all as [|r all]; [|reflexivity].
  cbn. destruct (truthy (text response)); reflexivity.
Qed.

(** X6.  Whatever the model does, the result has at most five records. *)
Theorem at_most_five_topics (generateContent : Request -> Result Response) :
  exists records,
    outcome (getTrendingTopics generateContent) = Ok records
    /\ List.length records <= 5.
Proof.
  destruct (getTrendingTopics_cases generateContent)
    as [(e & _ & ->) | (response & all & _ & _ & _ & ->)].
  - eexists. split; [reflexivity | simpl; lia].
  - eexists. split; [reflexivity|].
    destruct all as [|r all].
    + destruct (truthy (text response)); simpl; lia.
    + rewrite length_firstn. lia.
Qed.

(** X7.  The result is the empty list exactly when the model call
    succeeded with an empty text. *)
Theorem no_topics_only_for_empty_text (generateContent : Request -> Result Response) :
  outcome (getTrendingTopics generateContent) = Ok []
  <-> exists response,
        generateContent trending_request = Ok response /\ text response = [].
Proof.
  split.
  - destruct (getTrendingTopics_cases generateContent)
      as [(e & _ & ->) | (response & all & Hgen & _ & _ & ->)]; [discriminate|].
    intros H. exists response. split; [exact Hgen|].
    destruct all as [|r all]; [|discriminate].
    destruct (text response); [reflexivity | discriminate].
  - intros (response & Hgen & Hempty).
    unfold getTrendingTopics, await_generateContent, io_try, io_bind, io_lift, outcome.
    rewrite Hgen, Hempty. reflexivity.
Qed.

Lemma no_topics_only_for_empty_text_witness :
  outcome (getTrendingTopics (answering [])) = Ok []
  /\ outcome (getTrendingTopics (answering (lit " "))) <> Ok [].
Proof.
  split.
  - apply (no_topics_only_for_empty_text (answering [])).
    exists {| text := [] |}. split; reflexivity.
  - intros H. apply (no_topics_only_for_empty_text (answering (lit " "))) in H.
    destruct H as (response & Hgen & Hempty).
    injection Hgen as <-. discriminate.
Defined.

(** X8.  As soon as one line of the response matches, the result is the
    records of the first five matching lines (of all of them when there
    are fewer), in order, and no placeholder is added. *)
Theorem matching_lines_win
    (generateContent : Request -> Result Response) (response : Response) :
  generateContent trending_request = Ok response ->
  filter matches_pattern (split_nl (text response)) <> [] ->
  exists records,
    outcome (getTrendingTopics generateContent) = Ok records
    /\ Forall2 is_record_of
         (firstn 5 (filter matches_pattern (split_nl (text response)))) records
    /\ List.length records
       = Nat.min 5 (List.length (filter matches_pattern (split_nl (text response)))).
Proof.
  intros Hgen Hsome.
  destruct (getTrendingTopics_cases generateContent)
    as [(e & He & _) | (response' & all & Hgen' & _ & Hrec & ->)]; [congruence|].
  rewrite Hgen in Hgen'. injection Hgen' as <-.
  destruct all as [|r all].
  - inversion Hrec as [Hnil|]. symmetry in Hnil. contradiction.
  - exists (firstn 5 (r :: all)). split; [reflexivity|].
    split; [now apply Forall2_firstn|].
    rewrite length_firstn, (Forall2_length Hrec). reflexivity.
Qed.

Lemma matching_lines_win_witness :
  outcome (getTrendingTopics (answering two_topics_text)) = Ok [moon_record; tower_record].
Proof.
  assert (Hsome : filter matches_pattern (split_nl two_topics_text) <> [])
    by (vm_compute; discriminate).
  destruct (matching_lines_win (answering two_topics_text) {| text := two_topics_text |}
              eq_refl Hsome) as (records & Hout & _ & _).
  rewrite Hout. vm_compute in Hout. injection Hout as <-. vm_compute. reflexivity.
Defined.

Lemma parse_requested_lines ps :
  forallb requested ps = true ->
  parse_lines (List.map assemble ps) = Ok (List.map record_of_pieces ps).
Proof.
  induction ps as [|p ps IH]; [reflexivity|].
  cbn [forallb List.map]. intros H. apply andb_true_iff in H as [Hp Hps].
  unfold requested in Hp.
  apply andb_true_iff in Hp as [Hp _]. apply andb_true_iff in Hp as [Hu Hd].
  apply negb_true_iff in Hd.
  destruct (trending_eval_plain p [] Hu Hd eq_refl) as (m & Hm & Hg).
  pose proof (record_of_match p _ m Hu Hm Hg) as Hline.
  rewrite app_nil_r in Hline.
  now rewrite (parse_lines_cons _ _ _ _ Hline (IH Hps)).
Qed.



End TopicsSpec.

(** ** The gateway *)

Module GatewayFacts.
Import JS Json Service.

Lemma json_call_trace gen jp req fallback :
  trace (io_try
           (response <~ await_generateContent gen req ;;
            io_lift (cleanAndParseJson jp (text response)))
           (fun error => io_ret fallback))
  = [GenerateContent req].
Proof.
  unfold await_generateContent, io_try, io_bind, io_lift, io_ret, trace.
  destruct (gen req) as [response|e]; simpl; [|reflexivity].
  destruct (cleanAndParseJson jp (text response)); reflexivity.
Qed.

Lemma json_call_success gen jp req fallback response v :
  gen req = Ok response ->
  cleanAndParseJson jp (text response) = Ok v ->
  outcome (io_try
             (response <~ await_generateContent gen req ;;
              io_lift (cleanAndParseJson jp (text response)))
             (fun error => io_ret fallback))
  = Ok v.
Proof.
  unfold await_generateContent, io_try, io_bind, io_lift, io_ret, outcome.
  intros -> Hv. simpl. rewrite Hv. reflexivity.
Qed.

Lemma getTrendingTopics_trace gen :
  trace (getTrendingTopics gen) = [GenerateContent trending_request].
Proof.
  unfold getTrendingTopics, await_generateContent, io_try, io_bind, io_lift, io_ret, trace.
  destruct (gen trending_request) as [response|e]; [|reflexivity].
  cbn -[parse_topics slice0 Nat.ltb].
  destruct (parse_topics (text response)) as [topics|e]; cbn -[slice0 Nat.ltb]; [|reflexivity].
  destruct (0 <? List.length topics)%nat; [reflexivity|].
  destruct (truthy (text response)); reflexivity.
Qed.

End GatewayFacts.

Module GatewaySpec.
Import JS Json Service Samples GatewayFacts.

(** X10.  Every exported operation makes exactly one outbound call, with
    the request built from its arguments, whether that call succeeds or
    fails and whatever comes back: there is no retry and no second
    request. *)
Theorem one_call_per_operation
    (generateContent : Request -> Result Response)
    (sendMessage : jsstring -> Result Response)
    (JSON_parse : jsstring -> Result json) :
  (forall message,
      trace (getChatbotResponse sendMessage message) = [SendMessage message])
  /\ (forall image mimeType,
      trace (analyzeImageForAI generateContent JSON_parse image mimeType)
      = [GenerateContent (image_request image mimeType)])
  /\ (forall audio mimeType,
      trace (analyzeVoiceForAI generateContent JSON_parse audio mimeType)
      = [GenerateContent (voice_request audio mimeType)])
  /\ (forall content,
      trace (analyzeArticleContent generateContent JSON_parse content)
      = [GenerateContent (article_request content)])
  /\ (forall prompt,
      trace (generateAwarenessTemplateText generateContent JSON_parse prompt)
      = [GenerateContent (template_request prompt)])
  /\ trace (getTrendingTopics generateContent) = [GenerateContent trending_request]
  /\ (forall query,
      trace (getVoiceAssistantResponse generateContent query)
      = [GenerateContent (assistant_request query)]).
Proof.
  split.
  { intros message.
    unfold getChatbotResponse, await_sendMessage, io_try, io_bind, io_ret, trace.
    destruct (sendMessage message); reflexivity. }
  split; [intros; apply json_call_trace|].
  split; [intros; apply json_call_trace|].
  split; [intros; apply json_call_trace|].
  split; [intros; apply json_call_trace|].
  split; [apply getTrendingTopics_trace|].
  intros query.
  unfold getVoiceAssistantResponse, await_generateContent, io_try, io_bind, io_ret, trace.
  destruct (generateContent (assistant_request query)); reflexivity.
Qed.

(** X11.  When the model call succeeds and the response parses, each of the
    four JSON operations returns the parsed value as it is: nothing checks
    it against the response schema and the fallback plays no part. *)
Theorem parsed_value_returned_unchanged
    (generateContent : Request -> Result Response)
    (JSON_parse : jsstring -> Result json) :
  (forall image mimeType response v,
      generateContent (image_request image mimeType) = Ok response ->
      cleanAndParseJson JSON_parse (text response) = Ok v ->
      outcome (analyzeImageForAI generateContent JSON_parse image mimeType) = Ok v)
  /\ (forall audio mimeType response v,
      generateContent (voice_request audio mimeType) = Ok response ->
      cleanAndParseJson JSON_parse (text response) = Ok v ->
      outcome (analyzeVoiceForAI generateContent JSON_parse audio mimeType) = Ok v)
  /\ (forall content response v,
      generateContent (article_request content) = Ok response ->
      cleanAndParseJson JSON_parse (text response) = Ok v ->
      outcome (analyzeArticleContent generateContent JSON_parse content) = Ok v)
  /\ (forall prompt response v,
      generateContent (template_request prompt) = Ok response ->
      cleanAndParseJson JSON_parse (text response) = Ok v ->
      outcome (generateAwarenessTemplateText generateContent JSON_parse prompt) = Ok v).
Proof.
  split; [|split; [|split]]; intros; eapply json_call_success; eassumption.
Qed.

Lemma parsed_value_returned_unchanged_witness :
  outcome (analyzeArticleContent (answering (lit "[1, 2]")) Json.parse (lit "text"))
  = Ok (JArray [JNumber 1 0; JNumber 2 0]).
Proof.
  destruct (parsed_value_returned_unchanged (answering (lit "[1, 2]")) Json.parse)
    as (_ & _ & Harticle & _).
  apply (Harticle (lit "text") {| text := lit "[1, 2]" |}); [reflexivity|].
  vm_compute; reflexivity.
Defined.

(** X12.  The chatbot and the voice assistant return the text of the
    reply as it is, an empty one included, and their fixed apology when
    the call fails. *)
Theorem replies_verbatim_or_apology
    (generateContent : Request -> Result Response)
    (sendMessage : jsstring -> Result Response) :
  (forall message,
      outcome (getChatbotResponse sendMessage message)
      = Ok (match sendMessage message with
            | Ok response => text response
            | Throw _ => chatbot_fallback
            end))
  /\ (forall query,
      outcome (getVoiceAssistantResponse generateContent query)
      = Ok (match generateContent (assistant_request query) with
            | Ok response => text response
            | Throw _ => assistant_fallback
            end)).
Proof.
  split.
  - intros message.
    unfold getChatbotResponse, await_sendMessage, io_try, io_bind, io_ret, outcome.
    destruct (sendMessage message); reflexivity.
  - intros query.
    unfold getVoiceAssistantResponse, await_generateContent, io_try, io_bind, io_ret, outcome.
    destruct (generateContent (assistant_request query)); reflexivity.
Qed.

End GatewaySpec.

Module FenceFacts.
Import JS Json Service JSFacts JsonFacts NormalizerFacts.
Local Open Scope nat_scope.

(** Cutting what stands before and after gives back the middle. *)
Lemma substring_between (a t b : jsstring) :
  substring (Z.of_nat (List.length a))
            (Z.of_nat (List.length (a ++ t ++ b)) - Z.of_nat (List.length b))
            (a ++ t ++ b)
  = t.
Proof.
  unfold substring, clamp. rewrite !length_app.
  set (la := List.length a). set (lt := List.length t). set (lb := List.length b).
  replace (Z.to_nat (Z.of_nat (la + (lt + lb)) - Z.of_nat lb)) with (la + lt) by lia.
  rewrite Nat2Z.id.
  replace (Nat.min la (la + (lt + lb))) with la by lia.
  replace (Nat.min (la + lt) (la + (lt + lb))) with (la + lt) by lia.
  replace (Nat.min la (la + lt)) with la by lia.
  replace (Nat.max la (la + lt)) with (la + lt) by lia.
  replace (la + lt - la) with lt by lia.
  unfold la. rewrite skipn_app, skipn_all, Nat.sub_diag. cbn [skipn app].
  unfold lt. rewrite firstn_app, firstn_all, Nat.sub_diag. cbn [firstn]. apply app_nil_r.
Qed.

(** Cutting an opening fence and three more characters at the end. *)
Lemma substring_unclosed (t : jsstring) :
  3 <= List.length t ->
  substring 7 (Z.of_nat (List.length (lit "```json" ++ t)) - 3) (lit "```json" ++ t)
  = firstn (List.length t - 3) t.
Proof.
  intros Hlen. unfold substring, clamp. rewrite length_app.
  change (List.length (lit "```json")) with 7. change (Z.to_nat 7) with 7.
  replace (Z.to_nat (Z.of_nat (7 + List.length t) - 3)) with (4 + List.length t) by lia.
  replace (Nat.min 7 (7 + List.length t)) with 7 by lia.
  replace (Nat.min (4 + List.length t) (7 + List.length t)) with (4 + List.length t) by lia.
  replace (Nat.min 7 (4 + List.length t)) with 7 by lia.
  replace (Nat.max 7 (4 + List.length t)) with (4 + List.length t) by lia.
  replace (4 + List.length t - 7) with (List.length t - 3) by lia.
  reflexivity.
Qed.

Lemma startsWith_differs p x q c s :
  (c =? x)%N = false -> startsWith (p ++ x :: q) (p ++ c :: s) = false.
Proof.
  intros H. induction p as [|y p IH]; cbn [app].
  - now apply startsWith_head.
  - cbn [startsWith]. now rewrite N.eqb_refl, IH.
Qed.

(** The letter j begins no JSON text. *)
Lemma json_text_head_not_j t c r :
  skip_ws t = c :: r -> value_start c = true ->
  exists c0 t0, t = c0 :: t0 /\ (c0 =? 106)%N = false.
Proof.
  destruct t as [|c0 t0]; [discriminate|].
  intros Hs Hc. exists c0, t0. split; [reflexivity|].
  simpl in Hs. destruct (is_ws c0) eqn:Hw.
  - unfold is_ws in Hw.
    destruct (N.eqb_spec c0 106) as [->|_]; [discriminate | reflexivity].
  - injection Hs as -> _. unfold value_start, is_digit in Hc.
    destruct (N.eqb_spec c 106) as [->|_]; [discriminate | reflexivity].
Qed.

End FenceFacts.

Module FenceSpec.
Import JS Json Service Samples JSFacts JsonFacts NormalizerFacts FenceFacts.
Local Open Scope nat_scope.

Section UntaggedFence.
Variable JSON_parse : jsstring -> Result json.

Hypothesis JSON_parse_first :
  forall s v, JSON_parse s = Ok v ->
              exists c r, skip_ws s = c :: r /\ value_start c = true.

(** X13.  A JSON text wrapped in a code fence without a tag ("```" before
    and after) gives the same result as the bare text. *)
Theorem untagged_fence_same_value (t : jsstring) (v : json) :
  JSON_parse t = Ok v ->
  cleanAndParseJson JSON_parse (lit "```" ++ t ++ lit "```")
  = cleanAndParseJson JSON_parse t.
Proof.
  intros Hv.
  destruct (NormalizerSpec.json_text_trimmed JSON_parse JSON_parse_first t v Hv)
    as (c & r & Ht & Hc).
  rewrite (cleanAndParseJson_plain JSON_parse t c r Ht Hc).
  destruct (JSON_parse_first t v Hv) as (c1 & r1 & Hs & Hc1).
  destruct (json_text_head_not_j t c1 r1 Hs Hc1) as (c0 & t0 & -> & Hj).
  unfold cleanAndParseJson.
  assert (E : lit "```" ++ (c0 :: t0) ++ lit "```"
              = 96%N :: (lit "``" ++ (c0 :: t0) ++ lit "``") ++ [96%N]).
  { simpl. rewrite <- app_assoc. reflexivity. }
  assert (Htrim : trim (lit "```" ++ (c0 :: t0) ++ lit "```")
                  = lit "```" ++ (c0 :: t0) ++ lit "```").
  { rewrite E. apply trim_between_backticks. }
  rewrite Htrim.
  assert (Htag : startsWith (lit "```json") (lit "```" ++ (c0 :: t0) ++ lit "```") = false).
  { change (lit "```json") with (lit "```" ++ 106%N :: lit "son").
    change (lit "```" ++ (c0 :: t0) ++ lit "```") with (lit "```" ++ c0 :: (t0 ++ lit "```")).
    now apply startsWith_differs. }
  rewrite Htag, startsWith_app.
  pose proof (substring_between (lit "```") (c0 :: t0) (lit "```")) as Hsub.
  change (Z.of_nat (List.length (lit "```"))) with 3%Z in Hsub.
  rewrite Hsub. reflexivity.
Qed.
End UntaggedFence.

Lemma untagged_fence_same_value_witness :
  Json.parse verdict_text = Ok verdict_value
  /\ cleanAndParseJson Json.parse (lit "```" ++ verdict_text ++ lit "```")
     = cleanAndParseJson Json.parse verdict_text.
Proof.
  split; [vm_compute; reflexivity|].
  apply (untagged_fence_same_value Json.parse parse_start verdict_text verdict_value).
  vm_compute; reflexivity.
Defined.

(** X14.  White space before and after the response, line breaks
    included, never changes what the normalizer returns. *)
Theorem surrounding_white_space_ignored
    (JSON_parse : jsstring -> Result json) (w1 text w2 : jsstring) :
  forallb is_white w1 = true -> forallb is_white w2 = true ->
  cleanAndParseJson JSON_parse (w1 ++ text ++ w2) = cleanAndParseJson JSON_parse text.
Proof.
  intros H1 H2. unfold cleanAndParseJson.
  now rewrite (trim_surrounded w1 text w2 H1 H2).
Qed.

Lemma surrounding_white_space_ignored_witness :
  cleanAndParseJson Json.parse
    ([10%N; 32%N] ++ (lit "```json" ++ verdict_text ++ lit "```") ++ [13%N; 10%N])
  = cleanAndParseJson Json.parse (lit "```json" ++ verdict_text ++ lit "```").
Proof.
  apply (surrounding_white_space_ignored Json.parse [10%N; 32%N]
           (lit "```json" ++ verdict_text ++ lit "```") [13%N; 10%N]); reflexivity.
Defined.

(** X15.  A response that opens a json fence and never closes it still
    loses three characters at its end: what is parsed is the payload
    without its last three characters. *)
Theorem unclosed_fence_cuts_payload
    (JSON_parse : jsstring -> Result json) (t : jsstring) :
  3 <= List.length t ->
  trimEnd t = t ->
  cleanAndParseJson JSON_parse (lit "```json" ++ t)
  = JSON_parse (trim (firstn (List.length t - 3) t)).
Proof.
  intros Hlen Hend.
  assert (Hne : t <> []) by (intros ->; simpl in Hlen; lia).
  destruct (EvalFacts.no_trailing_white t Hend Hne) as (t' & c & -> & Hc).
  unfold cleanAndParseJson.
  assert (Htrim : trim (lit "```json" ++ t' ++ [c]) = lit "```json" ++ t' ++ [c]).
  { unfold trim.
    change (lit "```json" ++ t' ++ [c]) with (96%N :: (lit "``json" ++ t' ++ [c])).
    rewrite trimStart_fixed by reflexivity.
    change (96%N :: (lit "``json" ++ t' ++ [c])) with (lit "```json" ++ t' ++ [c]).
    rewrite app_assoc. now apply trimEnd_last. }
  rewrite Htrim, startsWith_app.
  now rewrite (substring_unclosed (t' ++ [c]) Hlen).
Qed.

Lemma unclosed_fence_cuts_payload_witness :
  cleanAndParseJson Json.parse (lit "```json" ++ lit "[1, 2, 3]  ]")
  = Ok (JArray [JNumber 1 0; JNumber 2 0; JNumber 3 0])
  /\ cleanAndParseJson Json.parse (lit "```json" ++ verdict_text) = Throw SyntaxError.
Proof.
  split.
  - rewrite (unclosed_fence_cuts_payload Json.parse (lit "[1, 2, 3]  ]"));
      [vm_compute; reflexivity | simpl; lia | reflexivity].
  - rewrite (unclosed_fence_cuts_payload Json.parse verdict_text);
      [vm_compute; reflexivity | vm_compute; lia | vm_compute; reflexivity].
Defined.

End FenceSpec.

(** ** The pages *)

Module TemplatePageSpec.
Import JS Json Service Samples AwarenessTemplatesPage JSFacts CallSiteFacts.

(** X16.  For a prompt with something other than white space in it, the
    handler makes one model call, with the prompt as typed (not trimmed),
    and always ends with loading off and no error message.  The result
    cell then holds what the template generator returned: the parsed
    response, or the fallback content when the model call fails; a
    response that parses to [null] leaves the cell [null].  The page's own
    failure message is never set, and the prompt and the copied flag are
    left as they were. *)
Theorem generate_never_reports_failure
    (generateContent : Request -> Result Response)
    (JSON_parse : jsstring -> Result json) (st : State) :
  trim (prompt st) <> [] ->
  exists content,
    handleGenerate generateContent JSON_parse st
    = ([GenerateContent (template_request (prompt st))],
       Ok {| prompt := prompt st; isLoading := false; result := nullable content;
             error := None; isCopied := isCopied st |})
    /\ outcome (generateAwarenessTemplateText generateContent JSON_parse (prompt st))
       = Ok content
    /\ (forall e, generateContent (template_request (prompt st)) = Throw e ->
                  content = template_fallback).
Proof.
  intros Hp.
  destruct (json_call_site generateContent JSON_parse (template_request (prompt st))
              template_fallback) as ((content & Hc) & Hfail & _).
  pose proof (generateAwarenessTemplateText_trace generateContent JSON_parse (prompt st))
    as Htr.
  exists content. split; [|split].
  - unfold handleGenerate.
    destruct (trim (prompt st)) as [|c r]; [congruence|]. cbn [truthy negb].
    cbn [prompt setError setResult setIsLoading].
    unfold generateAwarenessTemplateText, outcome, trace in *.
    destruct (io_try _ _) as [t [v|e]]; simpl in Hc, Htr; [|discriminate].
    injection Hc as ->. subst t. reflexivity.
  - exact Hc.
  - intros e He. specialize (Hfail e He).
    unfold outcome in *. rewrite Hfail in Hc. now injection Hc.
Qed.

Lemma generate_never_reports_failure_witness :
  let st := {| prompt := lit " vaccines "; isLoading := false; result := None;
               error := Some (lit "Prompt cannot be empty."); isCopied := true |} in
  handleGenerate unreachable Json.parse st
  = ([GenerateContent (template_request (lit " vaccines "))],
     Ok {| prompt := lit " vaccines "; isLoading := false;
           result := Some template_fallback; error := None; isCopied := true |})
  /\ handleGenerate (answering (lit "null")) Json.parse st
     = ([GenerateContent (template_request (lit " vaccines "))],
        Ok {| prompt := lit " vaccines "; isLoading := false;
              result := None; error := None; isCopied := true |}).
Proof.
  intros st. split.
  - destruct (generate_never_reports_failure unreachable Json.parse st)
      as (content & Hout & _ & Hfail); [vm_compute; discriminate|].
    rewrite Hout. rewrite (Hfail (Rejected (lit "fetch failed")) eq_refl). reflexivity.
  - destruct (generate_never_reports_failure (answering (lit "null")) Json.parse st)
      as (content & Hout & Hc & _); [vm_compute; discriminate|].
    rewrite Hout. vm_compute in Hc. injection Hc as <-. reflexivity.
Defined.

End TemplatePageSpec.

Module TopicsPageSpec.
Import JS Json Service Samples LineSamples TrendingTopicsPage GatewayFacts TopicsSpec.
Local Open Scope nat_scope.

(** What the effect leaves behind, from what [getTrendingTopics] returned. *)
Lemma fetchTopics_of_result gen st records :
  outcome (getTrendingTopics gen) = Ok records ->
  fetchTopics gen st
  = ([GenerateContent trending_request],
     Ok (if (0 <? List.length records)
         then {| topics := records; isLoading := false; error := None |}
         else {| topics := topics st; isLoading := false;
                 error := Some no_topics_message |})).
Proof.
  intros Hout. pose proof (getTrendingTopics_trace gen) as Htr.
  unfold fetchTopics, outcome, trace in *.
  destruct (getTrendingTopics gen) as [t r]. simpl in Hout, Htr. subst t r.
  unfold io_try, io_bind, io_ret.
  cbn [topics isLoading error setTopics setIsLoading setError].
  destruct (0 <? List.length records); reflexivity.
Qed.

(** X17.  Mounting the page makes one model call and always ends with
    loading off.  The message "Failed to fetch trending topics." can never
    appear: either one to five topics are shown without an error, or the
    message that no topics could be fetched is shown and the list is left
    as it was. *)
Theorem fetch_never_reports_failure
    (generateContent : Request -> Result Response) (st : State) :
  exists st',
    fetchTopics generateContent st = ([GenerateContent trending_request], Ok st')
    /\ isLoading st' = false
    /\ error st' <> Some fetch_failed_message
    /\ ((error st' = None /\ 1 <= List.length (topics st') <= 5)
        \/ (error st' = Some no_topics_message /\ topics st' = topics st)).
Proof.
  destruct (getTrendingTopics_cases generateContent)
    as [(e & _ & Hout) | (response & all & _ & _ & _ & Hout)];
    rewrite (fetchTopics_of_result generateContent st _ Hout).
  - eexists. split; [reflexivity|]. cbn.
    split; [reflexivity|]. split; [discriminate|]. left. split; [reflexivity | lia].
  - destruct all as [|r all].
    + destruct (truthy (text response)); eexists; (split; [reflexivity|]); cbn;
        (split; [reflexivity|]); (split; [discriminate|]).
      * left. split; [reflexivity | lia].
      * right. split; reflexivity.
    + eexists. split; [reflexivity|].
      assert (Hlen : 1 <= List.length (firstn 5 (r :: all)) <= 5).
      { rewrite length_firstn. simpl List.length. lia. }
      destruct (Nat.ltb_spec 0 (List.length (firstn 5 (r :: all)))) as [_|Hz]; [|lia].
      cbn [isLoading error topics].
      split; [reflexivity|]. split; [discriminate|]. left. split; [reflexivity | exact Hlen].
Qed.

(** X18.  What the user sees in the two degraded cases: when the model
    call fails, a single topic "Error fetching topics." with risk High and
    score 0 and no error message; when the model answers with an empty
    text, the message that no topics could be fetched. *)
Theorem fetch_degraded_cases
    (generateContent : Request -> Result Response) (st : State) :
  (forall e,
      generateContent trending_request = Throw e ->
      outcome (fetchTopics generateContent st)
      = Ok {| topics := [error_topic]; isLoading := false; error := None |})
  /\ (forall response,
      generateContent trending_request = Ok response ->
      text response = [] ->
      outcome (fetchTopics generateContent st)
      = Ok {| topics := topics st; isLoading := false;
              error := Some no_topics_message |}).
Proof.
  split.
  - intros e He.
    assert (Hout : outcome (getTrendingTopics generateContent) = Ok [error_topic]).
    { unfold getTrendingTopics, await_generateContent, io_try, io_bind, io_lift, outcome.
      rewrite He. reflexivity. }
    rewrite (fetchTopics_of_result generateContent st _ Hout). reflexivity.
  - intros response Hgen Hempty.
    assert (Hout : outcome (getTrendingTopics generateContent) = Ok []).
    { unfold getTrendingTopics, await_generateContent, io_try, io_bind, io_lift, outcome.
      rewrite Hgen, Hempty. reflexivity. }
    rewrite (fetchTopics_of_result generateContent st _ Hout). reflexivity.
Qed.

Lemma fetch_degraded_cases_witness :
  outcome (fetchTopics unreachable initial)
  = Ok {| topics := [{| topic := lit "Error fetching topics."; risk := lit "High";
                        score := Int 0 |}];
          isLoading := false; error := None |}
  /\ outcome (fetchTopics (answering []) initial)
     = Ok {| topics := []; isLoading := false;
             error := Some (lit "No trending topics could be fetched at this time.") |}.
Proof.
  split.
  - destruct (fetch_degraded_cases unreachable initial) as [H _].
    apply (H (Rejected (lit "fetch failed"))). reflexivity.
  - destruct (fetch_degraded_cases (answering []) initial) as [_ H].
    apply (H {| text := [] |}); reflexivity.
Defined.

(** X19.  The badge colour and the text colour of a risk always name the
    same colour, whatever the risk string and however it is lower-cased;
    a risk that is not high, medium or low in lower case gets gray. *)
Theorem risk_colours_agree (toLowerCase : jsstring -> jsstring) (risk : jsstring) :
  exists colour,
    In colour [lit "red-500"; lit "yellow-500"; lit "green-500"; lit "gray-500"]
    /\ getRiskColor toLowerCase risk = lit "bg-" ++ colour
    /\ getRiskTextColor toLowerCase risk = lit "text-" ++ colour
    /\ (JS.eqb (toLowerCase risk) (lit "high") = false ->
        JS.eqb (toLowerCase risk) (lit "medium") = false ->
        JS.eqb (toLowerCase risk) (lit "low") = false ->
        colour = lit "gray-500").
Proof.
  unfold getRiskColor, getRiskTextColor.
  destruct (JS.eqb (toLowerCase risk) (lit "high")).
  { exists (lit "red-500"). simpl. intuition discriminate. }
  destruct (JS.eqb (toLowerCase risk) (lit "medium")).
  { exists (lit "yellow-500"). simpl. intuition discriminate. }
  destruct (JS.eqb (toLowerCase risk) (lit "low")).
  { exists (lit "green-500"). simpl. intuition discriminate. }
  exists (lit "gray-500"). simpl. intuition.
Qed.

End TopicsPageSpec.
